(** * Makibania Modpack Installer: the installer orchestration front end

    A shallow embedding of the React front end of the installer
    ([App.tsx], [utils/localizer.ts], [components/screens/InstallerScreen.tsx])
    and the properties of its orchestration protocol.

    Conventions of the embedding.
    - A [useState] cell is a record field; a [setX v] call is the setter
      [setX v] on the record.  A [useRef] cell is a field of the instance.
    - A JavaScript [number] is an IEEE 754 binary64 value: Rocq's primitive
      [float].  [Math.round] is written out on the float's decomposition.
    - Payloads arrive over the Tauri event channel as JSON: TypeScript's
      types are erased, so a phase tag, an alert level and a translation key
      are plain strings.
    - An [await] splits a function in two: the part before it and the
      continuation that runs when the promise settles.  The environment
      (React, the event channel, the engine) chooses when continuations,
      listeners, effects and cleanups run; that choice is an [Action]. *)

From Stdlib Require Import Bool Ascii String List ZArith Lia.
From Stdlib Require Import Floats Uint63.
Import ListNotations.

Set Warnings "-inexact-float".

Open Scope string_scope.

(** The line feed of the [\n] escapes in the string tables. *)
Definition LF : string := String (ascii_of_nat 10) EmptyString.

(* ================================================================== *)
(** ** JavaScript numbers *)
(* ================================================================== *)

Module JsNumber.

(** [Z] to [number], exact for [|n| < 2^53]. *)
Definition of_Z (n : Z) : float :=
  if (n <? 0)%Z
  then PrimFloat.opp (PrimFloat.of_uint63 (Uint63.of_Z (Z.opp n)))
  else PrimFloat.of_uint63 (Uint63.of_Z n).

(** [Math.round(x)]: the integral number closest to [x], ties towards
    [+Infinity]; [NaN], the infinities and the zeros are returned as they
    are, and a result of zero keeps the sign of [x] ([Math.round(-0.2)] is
    [-0]).  A finite non-zero [x] is [(-1)^s * m * 2^e]; when [e >= 0] it
    is integral already, otherwise [floor (x + 1/2)] is computed exactly
    on integers. *)
Definition Math_round (x : float) : float :=
  match Prim2SF x with
  | S754_finite s m e =>
      if (0 <=? e)%Z then x
      else
        let num := (if s then Z.opp (Z.pos m) else Z.pos m)%Z in
        let n := ((2 * num + 2 ^ (Z.opp e)) / 2 ^ (1 - e))%Z in
        if (n =? 0)%Z
        then (if s then PrimFloat.opp PrimFloat.zero else PrimFloat.zero)
        else of_Z n
  | _ => x
  end.

End JsNumber.

(* ================================================================== *)
(** ** utils/localizer.ts *)
(* ================================================================== *)

Module Localizer.

Inductive Language := ja | en.

(** [interface Translation]: every field is a string. *)
Record Translation := {
  alertOnLaunchModLoader : string;
  alertOnFailedAddProfile : string;
  alertOnFailedLaunchModLoader : string;
  appTitle : string;
  close : string;
  complete : string;
  error : string;
  install : string;
  installFailed : string;
  installerTitle : string;
  languageOptionEn : string;
  languageOptionJa : string;
  languageSelectionLabel : string;
  occurredError : string;
  openLogFolder : string;
  phaseAddProfile : string;
  phaseDownloadModLoader : string;
  phaseDownloadMods : string;
  phaseDownloadResources : string;
  phaseFinishInstall : string;
  phaseFinishUpdate : string;
  phaseLaunchModLoader : string;
  phaseRemoveMods : string;
  phaseStart : string;
  phaseUpdateSettings : string;
  titleMessage : string;
  update : string;
  updateFailed : string
}.

Definition translations_ja : Translation := {|
  alertOnLaunchModLoader := "Modローダーが起動します。'クライアントをインストール/Install Client'にチェックが入っていることを確認の上、続行してください。";
  alertOnFailedAddProfile := "プロファイルの追加に失敗しました。Minecraftランチャーを起動し、手動で追加してください。";
  alertOnFailedLaunchModLoader := "Modローダーの起動に失敗しました。ダウンロードされたModローダーを手動で実行してください。";
  appTitle := "Makibania Modpack Installer";
  close := "閉じる";
  complete := "完了";
  error := "エラー";
  install := "インストール";
  installFailed := "インストールに失敗しました。" ++ LF ++ "詳細: ";
  installerTitle := "インストーラー";
  languageOptionEn := "英語";
  languageOptionJa := "日本語";
  languageSelectionLabel := "表示言語";
  occurredError := "エラーが発生しました。" ++ LF ++ "詳細: ";
  openLogFolder := "ログフォルダを開く";
  phaseAddProfile := "プロファイルを追加中...";
  phaseDownloadModLoader := "Modローダーをダウンロード中...";
  phaseDownloadMods := "Modをダウンロード中...";
  phaseDownloadResources := "リソースをダウンロード中...";
  phaseFinishInstall := "インストールが完了しました。";
  phaseFinishUpdate := "アップデートが完了しました。";
  phaseLaunchModLoader := "Modローダーを起動中...";
  phaseRemoveMods := "不要なModを削除中...";
  phaseStart := "インストールを開始しています...";
  phaseUpdateSettings := "設定を更新中...";
  titleMessage := "実行するモードを選択してください。";
  update := "アップデート";
  updateFailed := "アップデートに失敗しました。" ++ LF ++ "詳細: "
|}.

Definition translations_en : Translation := {|
  alertOnLaunchModLoader := "The mod loader will be launched. Please ensure that 'Install client' is checked, then click 'Next'.";
  alertOnFailedAddProfile := "Failed to add profile. Please launch the Minecraft launcher and add it manually.";
  alertOnFailedLaunchModLoader := "Failed to launch mod loader. Please run the downloaded mod loader manually.";
  appTitle := "Makibania Modpack Installer";
  close := "Close";
  complete := "Complete";
  error := "Error";
  install := "Install";
  installFailed := "Installation failed." ++ LF ++ "Details: ";
  installerTitle := "Installer";
  languageOptionEn := "English";
  languageOptionJa := "Japanese";
  languageSelectionLabel := "Display language";
  occurredError := "An error has occurred." ++ LF ++ "Details: ";
  openLogFolder := "Open log folder";
  phaseAddProfile := "Adding profile...";
  phaseDownloadModLoader := "Downloading mod loader...";
  phaseDownloadMods := "Downloading mods...";
  phaseDownloadResources := "Downloading resources...";
  phaseFinishInstall := "Installation finished.";
  phaseFinishUpdate := "Update finished.";
  phaseLaunchModLoader := "Launching mod loader...";
  phaseRemoveMods := "Removing unnecessary mods...";
  phaseStart := "Starting installation...";
  phaseUpdateSettings := "Updating settings...";
  titleMessage := "Choose how you want to proceed.";
  update := "Update";
  updateFailed := "Update failed." ++ LF ++ "Details: "
|}.

(** [translations: Record<Language, Translation>], read as
    [translations[language]]. *)
Definition translations (language : Language) : Translation :=
  match language with
  | ja => translations_ja
  | en => translations_en
  end.

(** The own properties of a translation object, in declaration order. *)
Definition entries (t : Translation) : list (string * string) :=
  [ ("alertOnLaunchModLoader", alertOnLaunchModLoader t);
    ("alertOnFailedAddProfile", alertOnFailedAddProfile t);
    ("alertOnFailedLaunchModLoader", alertOnFailedLaunchModLoader t);
    ("appTitle", appTitle t);
    ("close", close t);
    ("complete", complete t);
    ("error", error t);
    ("install", install t);
    ("installFailed", installFailed t);
    ("installerTitle", installerTitle t);
    ("languageOptionEn", languageOptionEn t);
    ("languageOptionJa", languageOptionJa t);
    ("languageSelectionLabel", languageSelectionLabel t);
    ("occurredError", occurredError t);
    ("openLogFolder", openLogFolder t);
    ("phaseAddProfile", phaseAddProfile t);
    ("phaseDownloadModLoader", phaseDownloadModLoader t);
    ("phaseDownloadMods", phaseDownloadMods t);
    ("phaseDownloadResources", phaseDownloadResources t);
    ("phaseFinishInstall", phaseFinishInstall t);
    ("phaseFinishUpdate", phaseFinishUpdate t);
    ("phaseLaunchModLoader", phaseLaunchModLoader t);
    ("phaseRemoveMods", phaseRemoveMods t);
    ("phaseStart", phaseStart t);
    ("phaseUpdateSettings", phaseUpdateSettings t);
    ("titleMessage", titleMessage t);
    ("update", update t);
    ("updateFailed", updateFailed t) ].

(** The tables are object literals, so a key that is no own property is
    looked up in [Object.prototype]. *)
Definition objectPrototype : list string :=
  [ "constructor"; "hasOwnProperty"; "isPrototypeOf";
    "propertyIsEnumerable"; "toLocaleString"; "toString"; "valueOf";
    "__proto__"; "__defineGetter__"; "__defineSetter__";
    "__lookupGetter__"; "__lookupSetter__" ].

(** What a property read with a computed key evaluates to. *)
Inductive JsValue :=
| JsString (s : string)
| JsInherited (name : string)
| JsUndefined.

Fixpoint assoc (key : string) (l : list (string * string)) : option string :=
  match l with
  | [] => None
  | (k, v) :: rest => if String.eqb k key then Some v else assoc key rest
  end.

(** [translation[key]] for a key that is only known at run time. *)
Definition get (t : Translation) (key : string) : JsValue :=
  match assoc key (entries t) with
  | Some v => JsString v
  | None =>
      if existsb (String.eqb key) objectPrototype
      then JsInherited key
      else JsUndefined
  end.

End Localizer.

(* ================================================================== *)
(** ** components/screens/InstallerScreen.tsx *)
(* ================================================================== *)

Module InstallerScreen.

(** [installerModes = ["install", "update"]]. *)
Inductive InstallerMode := install | update.

Definition installerModes : list InstallerMode := [install; update].

(** The payload of an [installer://event] message as it is received. *)
Inductive InstallerEvent :=
| changePhase (phase : string)
| changeDetail (detail : string)
| updateProgress (progress : float)
| addAlert (level : string) (translation_key : string).

Record AlertInfo := {
  level : string;
  message : Localizer.JsValue
}.

Record InstallerScreenProps := {
  mode : InstallerMode;
  translation : Localizer.Translation
}.

(** The six [useState] cells of the component. *)
Record RunState := {
  phase : string;
  detail : string;
  progress : float;
  isFinished : bool;
  alerts : list AlertInfo;
  errorMessage : option string
}.

Definition setPhase (v : string) (s : RunState) : RunState :=
  {| phase := v; detail := detail s; progress := progress s;
     isFinished := isFinished s; alerts := alerts s;
     errorMessage := errorMessage s |}.

Definition setDetail (v : string) (s : RunState) : RunState :=
  {| phase := phase s; detail := v; progress := progress s;
     isFinished := isFinished s; alerts := alerts s;
     errorMessage := errorMessage s |}.

Definition setProgress (v : float) (s : RunState) : RunState :=
  {| phase := phase s; detail := detail s; progress := v;
     isFinished := isFinished s; alerts := alerts s;
     errorMessage := errorMessage s |}.

Definition setIsFinished (v : bool) (s : RunState) : RunState :=
  {| phase := phase s; detail := detail s; progress := progress s;
     isFinished := v; alerts := alerts s;
     errorMessage := errorMessage s |}.

(** [setAlerts] is only called with an updater function. *)
Definition setAlerts (f : list AlertInfo -> list AlertInfo) (s : RunState)
  : RunState :=
  {| phase := phase s; detail := detail s; progress := progress s;
     isFinished := isFinished s; alerts := f (alerts s);
     errorMessage := errorMessage s |}.

Definition setErrorMessage (v : option string) (s : RunState) : RunState :=
  {| phase := phase s; detail := detail s; progress := progress s;
     isFinished := isFinished s; alerts := alerts s;
     errorMessage := v |}.

(** The initial values of the cells. *)
Definition initialState (props : InstallerScreenProps) : RunState :=
  {| phase := Localizer.phaseStart (translation props);
     detail := "";
     progress := 0%float;
     isFinished := false;
     alerts := [];
     errorMessage := None |}.

(** The inner [switch (payload.phase)]: seven cases, no [default]. *)
Definition switchPhase (t : Localizer.Translation) (tag : string)
           (s : RunState) : RunState :=
  if String.eqb tag "downloadModLoader"
  then setPhase (Localizer.phaseDownloadModLoader t) s
  else if String.eqb tag "removeMods"
  then setPhase (Localizer.phaseRemoveMods t) s
  else if String.eqb tag "downloadMods"
  then setPhase (Localizer.phaseDownloadMods t) s
  else if String.eqb tag "downloadResources"
  then setPhase (Localizer.phaseDownloadResources t) s
  else if String.eqb tag "updateSettings"
  then setPhase (Localizer.phaseUpdateSettings t) s
  else if String.eqb tag "addProfile"
  then setPhase (Localizer.phaseAddProfile t) s
  else if String.eqb tag "launchModLoader"
  then setPhase (Localizer.phaseLaunchModLoader t) s
  else s.

(** The callback given to [listen]: the outer [switch (payload.type)]. *)
Definition listener (props : InstallerScreenProps) (payload : InstallerEvent)
           (s : RunState) : RunState :=
  match payload with
  | changePhase tag =>
      switchPhase (translation props) tag (setDetail "" s)
  | changeDetail d =>
      setDetail d s
  | updateProgress p =>
      setProgress (JsNumber.Math_round (PrimFloat.mul p 100%float)) s
  | addAlert lvl key =>
      setAlerts
        (fun alerts =>
           (alerts ++ [ {| level := lvl;
                           message := Localizer.get (translation props) key |} ])%list)
        s
  end.

(** What [invoke] can reject with: [e: unknown] is a string or something
    else, of which the code only uses [String(e)]. *)
Inductive Thrown :=
| ThrownString (s : string)
| ThrownOther (asString : string).

(** [typeof e === "string" ? e : String(e)]. *)
Definition errorText (e : Thrown) : string :=
  match e with
  | ThrownString s => s
  | ThrownOther asString => asString
  end.

(** The [try] block after [await invoke("run_installer", ...)] returned. *)
Definition onInvokeResolved (props : InstallerScreenProps) (s : RunState)
  : RunState :=
  setIsFinished true
    (setDetail ""
       (setPhase
          (match mode props with
           | install => Localizer.phaseFinishInstall (translation props)
           | update => Localizer.phaseFinishUpdate (translation props)
           end)
          s)).

(** The [catch] block. *)
Definition onInvokeRejected (e : Thrown) (s : RunState) : RunState :=
  setErrorMessage (Some (errorText e)) s.

(** [Array.prototype.filter] with the two-argument callback. *)
Fixpoint filterFrom {A} (f : A -> nat -> bool) (i : nat) (l : list A)
  : list A :=
  match l with
  | [] => []
  | x :: rest =>
      if f x i then x :: filterFrom f (S i) rest
      else filterFrom f (S i) rest
  end.

Definition filter {A} (f : A -> nat -> bool) (l : list A) : list A :=
  filterFrom f 0 l.

(** The [onClose] of the alert rendered at [index]. *)
Definition onCloseAlert (index : nat) (s : RunState) : RunState :=
  setAlerts (fun alerts => filter (fun _ i => negb (Nat.eqb i index)) alerts) s.

(** [handleClose], without the call of [props.onDismissError] (see [App]). *)
Definition handleClose (s : RunState) : RunState :=
  setErrorMessage None s.

(** *** One mounted instance of the component

    Besides the cells an instance has the ref [isInstalling], the
    variable [unlisten] of the effect's closure, the promise that
    [runInstaller] is suspended on, and, on the side of the environment,
    whether the listener is registered on the channel and how often the
    command [run_installer] has been invoked. *)

(** The function [listen] resolves to: calling it removes the listener. *)
Inductive UnlistenFn := Unsubscribe.

Inductive Await :=
| NotStarted      (* [runInstaller] has not been called *)
| AwaitListen     (* suspended at [await listen(...)] *)
| AwaitInvoke     (* suspended at [await invoke("run_installer", ...)] *)
| Settled.        (* [runInstaller] has returned *)

Record Instance := {
  cells : RunState;
  isInstalling : bool;
  unlisten : option UnlistenFn;
  subscribed : bool;
  await : Await;
  invocations : nat
}.

Definition mount (props : InstallerScreenProps) : Instance :=
  {| cells := initialState props;
     isInstalling := false;
     unlisten := None;
     subscribed := false;
     await := NotStarted;
     invocations := 0 |}.

Definition withCells (f : RunState -> RunState) (w : Instance) : Instance :=
  {| cells := f (cells w);
     isInstalling := isInstalling w;
     unlisten := unlisten w;
     subscribed := subscribed w;
     await := await w;
     invocations := invocations w |}.

(** The body of the effect: the guard on the ref, then [runInstaller()]
    up to its first [await]. *)
Definition effect (w : Instance) : Instance :=
  if isInstalling w then w
  else
    {| cells := cells w;
       isInstalling := true;
       unlisten := None;
       subscribed := subscribed w;
       await := AwaitListen;
       invocations := invocations w |}.

(** The function the effect returns: [if (unlisten) unlisten()]. *)
Definition cleanup (w : Instance) : Instance :=
  match unlisten w with
  | Some Unsubscribe =>
      {| cells := cells w;
         isInstalling := isInstalling w;
         unlisten := unlisten w;
         subscribed := false;
         await := await w;
         invocations := invocations w |}
  | None => w
  end.

(** [listen] resolved: the listener is registered, [unlisten] is assigned
    and [runInstaller] goes on to [invoke("run_installer", ...)]. *)
Definition onListenResolved (w : Instance) : Instance :=
  {| cells := cells w;
     isInstalling := isInstalling w;
     unlisten := Some Unsubscribe;
     subscribed := true;
     await := AwaitInvoke;
     invocations := S (invocations w) |}.

(** The channel emits a payload: the listener runs if it is registered. *)
Definition deliver (props : InstallerScreenProps) (payload : InstallerEvent)
           (w : Instance) : Instance :=
  if subscribed w then withCells (listener props payload) w else w.

Definition settle (f : RunState -> RunState) (w : Instance) : Instance :=
  {| cells := f (cells w);
     isInstalling := isInstalling w;
     unlisten := unlisten w;
     subscribed := subscribed w;
     await := Settled;
     invocations := invocations w |}.

(** What the environment can do to an instance. *)
Inductive Action :=
| RunEffect                           (* React runs the effect *)
| RunCleanup                          (* React runs the effect's cleanup *)
| ListenResolved                      (* the promise of [listen] resolves *)
| Deliver (payload : InstallerEvent)  (* the channel emits a payload *)
| InvokeResolved                      (* [run_installer] returns *)
| InvokeRejected (e : Thrown)         (* [run_installer] fails *)
| CloseAlert (index : nat)            (* the user closes an alert *)
| CloseErrorDialog.                   (* the user closes the error dialog *)

(** A promise settles only while the function awaits it; a cleanup exists
    only once the effect went past its guard. *)
Definition enabled (a : Action) (w : Instance) : bool :=
  match a with
  | RunCleanup => isInstalling w
  | ListenResolved =>
      match await w with AwaitListen => true | _ => false end
  | InvokeResolved | InvokeRejected _ =>
      match await w with AwaitInvoke => true | _ => false end
  | CloseAlert index => Nat.ltb index (length (alerts (cells w)))
  | CloseErrorDialog =>
      match errorMessage (cells w) with Some _ => true | None => false end
  | RunEffect | Deliver _ => true
  end.

Definition apply (props : InstallerScreenProps) (a : Action) (w : Instance)
  : Instance :=
  match a with
  | RunEffect => effect w
  | RunCleanup => cleanup w
  | ListenResolved => onListenResolved w
  | Deliver payload => deliver props payload w
  | InvokeResolved => settle (onInvokeResolved props) w
  | InvokeRejected e => settle (onInvokeRejected e) w
  | CloseAlert index => withCells (onCloseAlert index) w
  | CloseErrorDialog => withCells handleClose w
  end.

(** A schedule is run from left to right; it is refused at the first
    action that cannot happen. *)
Fixpoint exec (props : InstallerScreenProps) (schedule : list Action)
         (w : Instance) : option Instance :=
  match schedule with
  | [] => Some w
  | a :: rest =>
      if enabled a w then exec props rest (apply props a w) else None
  end.

Definition reachable (props : InstallerScreenProps) (w : Instance) : Prop :=
  exists schedule, exec props schedule (mount props) = Some w.

(** *** What is shown *)

(** The outcome of the run as the screen presents it: the error dialog is
    open when [errorMessage != null], the completion button replaces the
    progress bar when [isFinished]. *)
Inductive Outcome :=
| Running
| Finished
| Errored (message : string).

Definition outcome (s : RunState) : Outcome :=
  match errorMessage s with
  | Some m => Errored m
  | None => if isFinished s then Finished else Running
  end.

(** The [value] of the progress bar; once the run has finished the button
    [complete] is rendered in its place. *)
Definition linearProgress (s : RunState) : option float :=
  if isFinished s then None else Some (progress s).

(** The children of [DialogContentText]: the framing for the mode followed
    by [errorMessage] ([null] renders as nothing). *)
Definition dialogContentText (props : InstallerScreenProps) (s : RunState)
  : string :=
  (match mode props with
   | install => Localizer.installFailed (translation props)
   | update => Localizer.updateFailed (translation props)
   end)
  ++ (match errorMessage s with Some m => m | None => "" end).

End InstallerScreen.

(* ================================================================== *)
(** ** App.tsx *)
(* ================================================================== *)

Module App.

Inductive Screen := title | installer.

Record TitleStatus := { isExistsConfig : bool }.

(** [error?: string]. *)
Record ModeResult := {
  isAccept : bool;
  error : option string
}.

Record AppState := {
  initializedStatus : option TitleStatus;
  language : Localizer.Language;
  screen : Screen;
  installerMode : option InstallerScreen.InstallerMode;
  errorMessage : option string
}.

Definition initialState : AppState :=
  {| initializedStatus := None;
     language := Localizer.ja;
     screen := title;
     installerMode := None;
     errorMessage := None |}.

(** [const translation = translations[language]]. *)
Definition translation (a : AppState) : Localizer.Translation :=
  Localizer.translations (language a).

(** [x || d] on an optional string: [undefined] and the empty string are
    falsy. *)
Definition orElse (x : option string) (d : string) : string :=
  match x with
  | Some EmptyString => d
  | Some s => s
  | None => d
  end.

(** [onModeSelect] after [await invoke("select_mode", { mode })] returned
    [result].  [t] is the [translation] of the render that created the
    callback. *)
Definition onModeSelect (t : Localizer.Translation)
           (mode : InstallerScreen.InstallerMode) (result : ModeResult)
           (a : AppState) : AppState :=
  if negb (isAccept result) then
    {| initializedStatus := initializedStatus a;
       language := language a;
       screen := screen a;
       installerMode := installerMode a;
       errorMessage :=
         Some (Localizer.occurredError t
               ++ orElse (error result) "<unknown error>") |}
  else
    {| initializedStatus := initializedStatus a;
       language := language a;
       screen := installer;
       installerMode := Some mode;
       errorMessage := errorMessage a |}.

Definition onDismissError (a : AppState) : AppState :=
  {| initializedStatus := initializedStatus a;
     language := language a;
     screen := title;
     installerMode := None;
     errorMessage := errorMessage a |}.

Definition onLanguageChange (l : Localizer.Language) (a : AppState)
  : AppState :=
  {| initializedStatus := initializedStatus a;
     language := l;
     screen := screen a;
     installerMode := installerMode a;
     errorMessage := errorMessage a |}.

(** The [onClose] of the dialog and the [onClick] of its button. *)
Definition onCloseDialog (a : AppState) : AppState :=
  {| initializedStatus := initializedStatus a;
     language := language a;
     screen := screen a;
     installerMode := installerMode a;
     errorMessage := None |}.

(** [initialize] after [await invoke("initialize_title")] returned. *)
Definition setInitialized (status : TitleStatus) (a : AppState) : AppState :=
  {| initializedStatus := Some status;
     language := language a;
     screen := screen a;
     installerMode := installerMode a;
     errorMessage := errorMessage a |}.

(** The element [getScreen] returns.  [installerMode!] passes the cell on
    as it is. *)
Inductive Element :=
| TitleScreen (t : Localizer.Translation)
| InstallerScreenOf (mode : option InstallerScreen.InstallerMode)
                    (t : Localizer.Translation).

Definition getScreen (a : AppState) : Element :=
  match screen a with
  | title => TitleScreen (translation a)
  | installer => InstallerScreenOf (installerMode a) (translation a)
  end.

End App.

(* ================================================================== *)
(** ** Vocabulary of the properties *)
(* ================================================================== *)

Module Protocol.

Import InstallerScreen.

(** The phase tags of the wire format with the label each one shows. *)
Definition phaseLabels (t : Localizer.Translation) : list (string * string) :=
  [ ("downloadModLoader", Localizer.phaseDownloadModLoader t);
    ("removeMods", Localizer.phaseRemoveMods t);
    ("downloadMods", Localizer.phaseDownloadMods t);
    ("downloadResources", Localizer.phaseDownloadResources t);
    ("updateSettings", Localizer.phaseUpdateSettings t);
    ("addProfile", Localizer.phaseAddProfile t);
    ("launchModLoader", Localizer.phaseLaunchModLoader t) ].

Definition phaseLabel (t : Localizer.Translation) (tag : string)
  : option string :=
  Localizer.assoc tag (phaseLabels t).

Definition knownPhase (tag : string) : bool :=
  existsb (String.eqb tag)
    [ "downloadModLoader"; "removeMods"; "downloadMods";
      "downloadResources"; "updateSettings"; "addProfile";
      "launchModLoader" ].

(** The two transitions that end a run. *)
Definition terminal (a : Action) : bool :=
  match a with
  | InvokeResolved | InvokeRejected _ => true
  | _ => false
  end.

(** The props of the examples. *)
Definition installEn : InstallerScreenProps :=
  {| mode := install; translation := Localizer.translations_en |}.

Definition updateEn : InstallerScreenProps :=
  {| mode := update; translation := Localizer.translations_en |}.

(** The state an instance is in while [run_installer] executes. *)
Definition running (props : InstallerScreenProps) : Instance :=
  onListenResolved (effect (mount props)).

(** What holds of every instance the environment can produce. *)
Definition invariant (w : Instance) : Prop :=
  (isInstalling w = false -> await w = NotStarted)
  /\ invocations w =
       match await w with
       | NotStarted | AwaitListen => 0
       | AwaitInvoke | Settled => 1
       end
  /\ match await w with
     | NotStarted | AwaitListen =>
         subscribed w = false /\ unlisten w = None
     | AwaitInvoke | Settled =>
         unlisten w = Some Unsubscribe
     end
  /\ match await w with
     | Settled => True
     | _ => errorMessage (cells w) = None /\ isFinished (cells w) = false
     end.

End Protocol.

(* ================================================================== *)
(** ** Sequences of payloads *)
(* ================================================================== *)

Module Stream.

Import InstallerScreen.

(** The listener called once per payload, in the order of arrival. *)
Definition listenAll (props : InstallerScreenProps)
           (payloads : list InstallerEvent) (s : RunState) : RunState :=
  fold_left (fun s payload => listener props payload s) payloads s.

(** What a payload writes to each cell, if anything. *)
Definition phaseWrite (t : Localizer.Translation) (payload : InstallerEvent)
  : list string :=
  match payload with
  | changePhase tag =>
      match Protocol.phaseLabel t tag with
      | Some label => [label]
      | None => []
      end
  | _ => []
  end.

Definition detailWrite (payload : InstallerEvent) : list string :=
  match payload with
  | changePhase _ => [""]
  | changeDetail d => [d]
  | _ => []
  end.

Definition progressWrite (payload : InstallerEvent) : list float :=
  match payload with
  | updateProgress p => [JsNumber.Math_round (PrimFloat.mul p 100%float)]
  | _ => []
  end.

Definition alertWrite (t : Localizer.Translation) (payload : InstallerEvent)
  : list AlertInfo :=
  match payload with
  | addAlert lvl key => [ {| level := lvl; message := Localizer.get t key |} ]
  | _ => []
  end.

End Stream.

(* ================================================================== *)
(** ** components/screens/TitleScreen.tsx *)
(* ================================================================== *)

Module TitleScreen.

Record TitleStatus := {
  canInstall : bool;
  canUpdate : bool
}.

(** A [Button] of the mode list: its [key], its [disabled] flag, the mode
    its [onClick] passes to [props.onModeSelect], and its label. *)
Record ButtonElement := {
  key : string;
  disabled : bool;
  onClick : InstallerScreen.InstallerMode;
  children : string
}.

(** The string of a mode in the template literal of the key. *)
Definition modeName (mode : InstallerScreen.InstallerMode) : string :=
  match mode with
  | InstallerScreen.install => "install"
  | InstallerScreen.update => "update"
  end.

(** [installerModes.map((mode) => <Button ...>)]. *)
Definition modeButtons (t : Localizer.Translation) (status : TitleStatus)
  : list ButtonElement :=
  map (fun mode =>
         {| key := "title-" ++ modeName mode;
            disabled :=
              match mode with
              | InstallerScreen.install => negb (canInstall status)
              | InstallerScreen.update => negb (canUpdate status)
              end;
            onClick := mode;
            children :=
              match mode with
              | InstallerScreen.install => Localizer.install t
              | InstallerScreen.update => Localizer.update t
              end |})
      InstallerScreen.installerModes.

(** The cell [initializedStatus], the ref [isInitialized], whether
    [initialize] is suspended at [await invoke("initialize_title")], and how
    often the command has been invoked. *)
Record Instance := {
  initializedStatus : option TitleStatus;
  isInitialized : bool;
  pending : bool;
  invocations : nat
}.

Definition mount : Instance :=
  {| initializedStatus := None;
     isInitialized := false;
     pending := false;
     invocations := 0 |}.

(** The body of the effect: the guard on the ref, then [initialize()] up to
    its [await]. *)
Definition effect (w : Instance) : Instance :=
  if isInitialized w then w
  else
    {| initializedStatus := initializedStatus w;
       isInitialized := true;
       pending := true;
       invocations := S (invocations w) |}.

(** [initialize] after the command returned [status]. *)
Definition onInitializeResolved (status : TitleStatus) (w : Instance)
  : Instance :=
  {| initializedStatus := Some status;
     isInitialized := isInitialized w;
     pending := false;
     invocations := invocations w |}.

(** [initializedStatus && <Stack>...</Stack>]: the buttons are rendered once
    the status is there. *)
Definition renderedButtons (t : Localizer.Translation) (w : Instance)
  : list ButtonElement :=
  match initializedStatus w with
  | Some status => modeButtons t status
  | None => []
  end.

(** [open={!initializedStatus}] of the backdrop. *)
Definition backdropOpen (w : Instance) : bool :=
  match initializedStatus w with
  | Some _ => false
  | None => true
  end.

(** The modes a click can hand to [props.onModeSelect]: those of the
    rendered buttons that are not disabled. *)
Definition selectable (t : Localizer.Translation) (w : Instance)
  : list InstallerScreen.InstallerMode :=
  map onClick
    (List.filter (fun b => negb (disabled b)) (renderedButtons t w)).

Inductive Action :=
| RunEffect                                 (* React runs the effect *)
| InitializeResolved (status : TitleStatus). (* the command returns *)

Definition enabled (a : Action) (w : Instance) : bool :=
  match a with
  | RunEffect => true
  | InitializeResolved _ => pending w
  end.

Definition apply (a : Action) (w : Instance) : Instance :=
  match a with
  | RunEffect => effect w
  | InitializeResolved status => onInitializeResolved status w
  end.

Fixpoint exec (schedule : list Action) (w : Instance) : option Instance :=
  match schedule with
  | [] => Some w
  | a :: rest => if enabled a w then exec rest (apply a w) else None
  end.

Definition reachable (w : Instance) : Prop :=
  exists schedule, exec schedule mount = Some w.

Definition invariant (w : Instance) : Prop :=
  invocations w = (if isInitialized w then 1 else 0)
  /\ (pending w = true -> isInitialized w = true /\ initializedStatus w = None)
  /\ (isInitialized w = false -> initializedStatus w = None).

End TitleScreen.

(* ================================================================== *)
(** ** App.tsx: the component over its lifetime *)
(* ================================================================== *)

Module AppLife.

(** The cells of [App], the ref [isInitialized], whether [initialize] is
    suspended at its [await], and how often [initialize_title] has been
    invoked. *)
Record Instance := {
  state : App.AppState;
  isInitialized : bool;
  pending : bool;
  invocations : nat
}.

Definition mount : Instance :=
  {| state := App.initialState;
     isInitialized := false;
     pending := false;
     invocations := 0 |}.

Definition withState (f : App.AppState -> App.AppState) (w : Instance)
  : Instance :=
  {| state := f (state w);
     isInitialized := isInitialized w;
     pending := pending w;
     invocations := invocations w |}.

(** The body of the effect of [App]. *)
Definition effect (w : Instance) : Instance :=
  if isInitialized w then w
  else
    {| state := state w;
       isInitialized := true;
       pending := true;
       invocations := S (invocations w) |}.

Definition onInitializeResolved (status : App.TitleStatus) (w : Instance)
  : Instance :=
  {| state := App.setInitialized status (state w);
     isInitialized := isInitialized w;
     pending := false;
     invocations := invocations w |}.

(** [open={!initializedStatus}] of the backdrop. *)
Definition backdropOpen (a : App.AppState) : bool :=
  match App.initializedStatus a with
  | Some _ => false
  | None => true
  end.

(** [screen === "title" ? "" : translation.installerTitle]. *)
Definition titleLabel (a : App.AppState) : string :=
  match App.screen a with
  | App.title => ""
  | App.installer => Localizer.installerTitle (App.translation a)
  end.

Inductive Action :=
| RunEffect
| InitializeResolved (status : App.TitleStatus)
| ModeAnswered (t : Localizer.Translation)
               (mode : InstallerScreen.InstallerMode)
               (result : App.ModeResult)     (* [select_mode] returns *)
| DismissError                               (* [props.onDismissError()] *)
| LanguageChange (l : Localizer.Language)
| CloseDialog.

(** [onDismissError] is a prop of the installer screen only. *)
Definition enabled (a : Action) (w : Instance) : bool :=
  match a with
  | InitializeResolved _ => pending w
  | DismissError =>
      match App.screen (state w) with
      | App.installer => true
      | App.title => false
      end
  | _ => true
  end.

Definition apply (a : Action) (w : Instance) : Instance :=
  match a with
  | RunEffect => effect w
  | InitializeResolved status => onInitializeResolved status w
  | ModeAnswered t mode result => withState (App.onModeSelect t mode result) w
  | DismissError => withState App.onDismissError w
  | LanguageChange l => withState (App.onLanguageChange l) w
  | CloseDialog => withState App.onCloseDialog w
  end.

Fixpoint exec (schedule : list Action) (w : Instance) : option Instance :=
  match schedule with
  | [] => Some w
  | a :: rest => if enabled a w then exec rest (apply a w) else None
  end.

Definition reachable (w : Instance) : Prop :=
  exists schedule, exec schedule mount = Some w.

Definition invariant (w : Instance) : Prop :=
  invocations w = (if isInitialized w then 1 else 0)
  /\ (pending w = true ->
      isInitialized w = true /\ App.initializedStatus (state w) = None)
  /\ (isInitialized w = false -> App.initializedStatus (state w) = None)
  /\ match App.screen (state w) with
     | App.title => App.installerMode (state w) = None
     | App.installer => exists mode, App.installerMode (state w) = Some mode
     end.

(** The actions that neither accept a mode nor dismiss a run. *)
Definition keepsRun (a : Action) : bool :=
  match a with
  | ModeAnswered _ _ result => negb (App.isAccept result)
  | DismissError => false
  | _ => true
  end.

End AppLife.

(* ================================================================== *)
(** ** The installer screen under React *)
(* ================================================================== *)

(** What React adds to an instance: it keeps the function the last run of
    the effect returned and calls it before it runs the effect again and
    when it unmounts the component; it renders again after every update of
    a cell, and a render that throws unmounts the component (there is no
    error boundary). *)
Module Lifecycle.

Import InstallerScreen.

(** Whether [{alert.message}] can be rendered: a string is text,
    [undefined] and a function are rendered as nothing, an object that is
    no element makes the render throw.  The members of [Object.prototype]
    are functions, except [__proto__], which reads as the prototype
    object. *)
Definition validChild (v : Localizer.JsValue) : bool :=
  match v with
  | Localizer.JsString _ => true
  | Localizer.JsUndefined => true
  | Localizer.JsInherited name => negb (String.eqb name "__proto__")
  end.

(** The render of the component: [alerts.map(...)] is the only place where
    a value that is not a string by construction is rendered. *)
Definition renders (s : RunState) : bool :=
  forallb (fun alert => validChild (message alert)) (alerts s).

Record Mounted := {
  instance : Instance;
  cleanupHeld : bool;     (* React holds a cleanup of the effect *)
  unmounted : bool
}.

Definition mount (props : InstallerScreenProps) : Mounted :=
  {| instance := InstallerScreen.mount props;
     cleanupHeld := false;
     unmounted := false |}.

(** React runs the effect and keeps what it returns: the cleanup when the
    body went past the guard, nothing when it returned at the guard. *)
Definition runEffect (m : Mounted) : Mounted :=
  {| instance := effect (instance m);
     cleanupHeld := negb (isInstalling (instance m));
     unmounted := unmounted m |}.

(** React calls the cleanup it holds; a cleanup is called once. *)
Definition runCleanup (m : Mounted) : Mounted :=
  {| instance := cleanup (instance m);
     cleanupHeld := false;
     unmounted := unmounted m |}.

(** React unmounts the component: the cleanup it holds, if any, is called. *)
Definition unmount (m : Mounted) : Mounted :=
  {| instance := if cleanupHeld m then cleanup (instance m) else instance m;
     cleanupHeld := false;
     unmounted := true |}.

(** The render after an update. *)
Definition rerender (m : Mounted) : Mounted :=
  if renders (cells (instance m)) then m else unmount m.

(** Nothing happens to an unmounted component.  React calls the cleanup it
    holds before it runs the effect again, so the effect runs only when no
    cleanup is held, and a cleanup runs only when one is held. *)
Definition enabled (a : Action) (m : Mounted) : bool :=
  negb (unmounted m)
  && match a with
     | RunEffect => negb (cleanupHeld m)
     | RunCleanup => cleanupHeld m
     | _ => InstallerScreen.enabled a (instance m)
     end.

Definition apply (props : InstallerScreenProps) (a : Action) (m : Mounted)
  : Mounted :=
  match a with
  | RunEffect => runEffect m
  | RunCleanup => runCleanup m
  | _ =>
      rerender
        {| instance := InstallerScreen.apply props a (instance m);
           cleanupHeld := cleanupHeld m;
           unmounted := unmounted m |}
  end.

Fixpoint exec (props : InstallerScreenProps) (schedule : list Action)
         (m : Mounted) : option Mounted :=
  match schedule with
  | [] => Some m
  | a :: rest =>
      if enabled a m then exec props rest (apply props a m) else None
  end.

Definition reachable (props : InstallerScreenProps) (m : Mounted) : Prop :=
  exists schedule, exec props schedule (mount props) = Some m.

(** A payload whose alert, if it adds one, can be rendered. *)
Definition renderable (props : InstallerScreenProps)
           (payload : InstallerEvent) : bool :=
  match payload with
  | addAlert _ key => validChild (Localizer.get (translation props) key)
  | _ => true
  end.

(** The mounted instance while [run_installer] executes, after a plain
    mount: the effect ran once and [listen] resolved. *)
Definition running (props : InstallerScreenProps) : Mounted :=
  apply props ListenResolved (apply props RunEffect (mount props)).

(** What holds of every mounted instance React can produce. *)
Definition invariant (props : InstallerScreenProps) (m : Mounted) : Prop :=
  (cleanupHeld m = true -> isInstalling (instance m) = true)
  /\ (unmounted m = false -> renders (cells (instance m)) = true)
  /\ (unmounted m = false -> InstallerScreen.reachable props (instance m)).

End Lifecycle.

Import InstallerScreen Protocol.

(** Two numbers with different decompositions are different. *)
Ltac float_neq :=
  let H := fresh in
  intro H; apply (f_equal Prim2SF) in H; vm_compute in H; discriminate H.

(** Closes the conjuncts of [invariant] after a case analysis. *)
Ltac close_invariant :=
  repeat split; intros;
  first [ assumption | discriminate | congruence | tauto | lia
        | match goal with
          | Hguard : ?P -> _, Hflag : ?P |- _ =>
              specialize (Hguard Hflag); discriminate Hguard
          end ].

(* ================================================================== *)
(** ** Properties of the event handler *)
(* ================================================================== *)

(** The listener never touches [isFinished] and [errorMessage]. *)
Lemma listener_isFinished props payload s :
  isFinished (listener props payload s) = isFinished s.
Proof.
  destruct payload as [tag | d | p | lvl key]; cbn; try reflexivity.
  unfold switchPhase.
  repeat (match goal with
          | |- context [if ?b then _ else _] => destruct b
          end; try reflexivity).
Qed.

Lemma listener_errorMessage props payload s :
  errorMessage (listener props payload s) = errorMessage s.
Proof.
  destruct payload as [tag | d | p | lvl key]; cbn; try reflexivity.
  unfold switchPhase.
  repeat (match goal with
          | |- context [if ?b then _ else _] => destruct b
          end; try reflexivity).
Qed.

Lemma listener_outcome props payload s :
  outcome (listener props payload s) = outcome s.
Proof.
  unfold outcome.
  now rewrite listener_errorMessage, listener_isFinished.
Qed.

(** [switchPhase] in terms of the table of labels. *)
Lemma switchPhase_label t tag s :
  switchPhase t tag s =
  match phaseLabel t tag with
  | Some label => setPhase label s
  | None => s
  end.
Proof.
  unfold switchPhase, phaseLabel, phaseLabels, Localizer.assoc.
  repeat (rewrite (String.eqb_sym _ tag);
          destruct (String.eqb tag _); [reflexivity|]).
  reflexivity.
Qed.

Lemma phaseLabel_known t tag :
  knownPhase tag = false -> phaseLabel t tag = None.
Proof.
  unfold knownPhase, phaseLabel, phaseLabels, Localizer.assoc, existsb.
  repeat (rewrite (String.eqb_sym _ tag);
          destruct (String.eqb tag _); [discriminate|]).
  reflexivity.
Qed.

(** C1 (as amended).  For every [changePhase] event the listener clears
    [detail] whatever it was, sets [phase] to the label of the tag when the
    tag is one of the seven known ones (and leaves it otherwise), and leaves
    [progress] at its prior value; the other cells are untouched. *)
Theorem changePhase_sets_label_clears_detail_keeps_progress :
  forall props tag s,
    phase (listener props (changePhase tag) s) =
      match phaseLabel (translation props) tag with
      | Some label => label
      | None => phase s
      end
    /\ detail (listener props (changePhase tag) s) = ""
    /\ progress (listener props (changePhase tag) s) = progress s
    /\ isFinished (listener props (changePhase tag) s) = isFinished s
    /\ alerts (listener props (changePhase tag) s) = alerts s
    /\ errorMessage (listener props (changePhase tag) s) = errorMessage s.
Proof.
  intros props tag s. cbn [listener].
  rewrite switchPhase_label.
  destruct (phaseLabel (translation props) tag); cbn; repeat split.
Qed.

(** C1, the claim as stated fails: with [progress] at 50, a [changePhase]
    to [downloadMods] sets the label and leaves [progress] at 50, not 0. *)
Lemma changePhase_does_not_reset_progress :
  progress
    (listener installEn (changePhase "downloadMods")
       (listener installEn (updateProgress 0.5%float) (initialState installEn)))
  = 50%float
  /\ progress
       (listener installEn (changePhase "downloadMods")
          (listener installEn (updateProgress 0.5%float)
             (initialState installEn)))
     <> 0%float
  /\ phase
       (listener installEn (changePhase "downloadMods")
          (listener installEn (updateProgress 0.5%float)
             (initialState installEn)))
     = "Downloading mods...".
Proof.
  split; [reflexivity | split; [float_neq | reflexivity]].
Qed.

(** C3 (as amended).  For every [updateProgress] event with payload [p] the
    listener stores [Math.round(p * 100)], which is the value the progress
    bar shows while the run has not finished, and nothing else changes; the
    payload is not clamped, so [-0.2] yields [-20] and [1.7] yields [170],
    while [0], [0.5] and [1] yield [0], [50] and [100].  The listener is
    total: no payload makes it fail or raises an error. *)
Theorem updateProgress_rounds_without_clamping :
  forall props p s,
    listener props (updateProgress p) s =
      setProgress (JsNumber.Math_round (PrimFloat.mul p 100%float)) s
    /\ outcome (listener props (updateProgress p) s) = outcome s
    /\ linearProgress (listener props (updateProgress p) s)
       = (if isFinished s then None
          else Some (JsNumber.Math_round (PrimFloat.mul p 100%float)))
    /\ progress (listener props (updateProgress (-0.2)%float) s) = (-20)%float
    /\ progress (listener props (updateProgress 1.7%float) s) = 170%float
    /\ progress (listener props (updateProgress 0%float) s) = 0%float
    /\ progress (listener props (updateProgress 0.5%float) s) = 50%float
    /\ progress (listener props (updateProgress 1%float) s) = 100%float.
Proof.
  intros props p s. repeat split.
Qed.

(** C3, the claim as stated fails: [-0.2] is shown as [-20], not [0], and
    [1.7] as [170], not [100]. *)
Lemma updateProgress_out_of_range_not_clamped :
  progress (listener installEn (updateProgress (-0.2)%float)
              (initialState installEn)) <> 0%float
  /\ progress (listener installEn (updateProgress 1.7%float)
                 (initialState installEn)) <> 100%float.
Proof.
  split; float_neq.
Qed.

(** ** An unknown phase tag *)

Lemma listener_unknown_phase props tag s :
  knownPhase tag = false ->
  listener props (changePhase tag) s = setDetail "" s.
Proof.
  intros Hunknown. cbn [listener].
  rewrite switchPhase_label, (phaseLabel_known _ _ Hunknown).
  reflexivity.
Qed.

(** C5 (as amended).  A [changePhase] event whose tag is none of the seven
    known ones raises no error: the outcome and the text of the error dialog
    are what they were, [phase] keeps the label of the phase before, and the
    instance goes on waiting for [run_installer] with its listener in
    place. *)
Theorem unknown_phase_raises_no_error :
  forall props tag w,
    knownPhase tag = false ->
    outcome (cells (apply props (Deliver (changePhase tag)) w))
      = outcome (cells w)
    /\ errorMessage (cells (apply props (Deliver (changePhase tag)) w))
       = errorMessage (cells w)
    /\ dialogContentText props (cells (apply props (Deliver (changePhase tag)) w))
       = dialogContentText props (cells w)
    /\ phase (cells (apply props (Deliver (changePhase tag)) w))
       = phase (cells w)
    /\ await (apply props (Deliver (changePhase tag)) w) = await w
    /\ subscribed (apply props (Deliver (changePhase tag)) w) = subscribed w
    /\ enabled InvokeResolved (apply props (Deliver (changePhase tag)) w)
       = enabled InvokeResolved w.
Proof.
  intros props tag w Hunknown. cbn [apply]. unfold deliver.
  destruct (subscribed w) eqn:Hsub; [|now repeat split].
  unfold withCells.
  rewrite (listener_unknown_phase _ _ _ Hunknown); cbn.
  rewrite Hsub. now repeat split.
Qed.

Lemma unknown_phase_raises_no_error_witness :
  outcome (cells (apply installEn (Deliver (changePhase "verifyFiles"))
                    (running installEn)))
    = Running
  /\ phase (cells (apply installEn (Deliver (changePhase "verifyFiles"))
                     (running installEn)))
     = "Starting installation..."
  /\ await (apply installEn (Deliver (changePhase "verifyFiles"))
              (running installEn))
     = AwaitInvoke.
Proof.
  destruct (unknown_phase_raises_no_error installEn "verifyFiles"
              (running installEn) eq_refl)
    as (Hout & _ & _ & Hphase & Hawait & _).
  rewrite Hout, Hphase, Hawait. repeat split.
Defined.

(** C5, the claim as stated fails: after a [changePhase] with the unknown
    tag [verifyFiles] no error is shown (the run is still [Running], the
    error cell is empty), and the run can still finish. *)
Lemma unknown_phase_is_silently_ignored :
  outcome (cells (apply installEn (Deliver (changePhase "verifyFiles"))
                    (running installEn)))
    = Running
  /\ errorMessage (cells (apply installEn (Deliver (changePhase "verifyFiles"))
                            (running installEn)))
     = None
  /\ knownPhase "verifyFiles" = false
  /\ option_map (fun w => outcome (cells w))
       (exec installEn
          [RunEffect; ListenResolved; Deliver (changePhase "verifyFiles");
           InvokeResolved]
          (mount installEn))
     = Some Finished.
Proof. repeat split. Qed.

(** C10.  For a [changePhase] event with an unknown tag that reaches the
    listener, [detail] becomes the empty string while [phase], [progress],
    [alerts] and the outcome stay as they were; the listener stays
    registered and the run awaited, so every later payload is handled by
    the listener as usual. *)
Theorem unknown_phase_only_clears_detail :
  forall props tag w,
    knownPhase tag = false ->
    subscribed w = true ->
    detail (cells (apply props (Deliver (changePhase tag)) w)) = ""
    /\ phase (cells (apply props (Deliver (changePhase tag)) w))
       = phase (cells w)
    /\ progress (cells (apply props (Deliver (changePhase tag)) w))
       = progress (cells w)
    /\ alerts (cells (apply props (Deliver (changePhase tag)) w))
       = alerts (cells w)
    /\ outcome (cells (apply props (Deliver (changePhase tag)) w))
       = outcome (cells w)
    /\ subscribed (apply props (Deliver (changePhase tag)) w) = true
    /\ await (apply props (Deliver (changePhase tag)) w) = await w
    /\ (forall payload,
          cells (apply props (Deliver payload)
                   (apply props (Deliver (changePhase tag)) w))
          = listener props payload (setDetail "" (cells w)))
    /\ (forall schedule,
          exec props (Deliver (changePhase tag) :: schedule) w
          = exec props schedule (withCells (setDetail "") w)).
Proof.
  intros props tag w Hunknown Hsub.
  assert (Hstep : apply props (Deliver (changePhase tag)) w
                  = withCells (setDetail "") w).
  { cbn [apply]. unfold deliver. rewrite Hsub. unfold withCells.
    now rewrite (listener_unknown_phase _ _ _ Hunknown). }
  rewrite Hstep. cbn.
  repeat split; try assumption.
  - intros payload. unfold deliver. cbn. now rewrite Hsub.
  - intros schedule. cbn [apply] in Hstep. now rewrite Hstep.
Qed.

Lemma unknown_phase_only_clears_detail_witness :
  detail (cells (apply installEn (Deliver (changePhase "verifyFiles"))
                   (apply installEn (Deliver (changeDetail "forge.jar"))
                      (running installEn))))
    = ""
  /\ cells (apply installEn (Deliver (updateProgress 0.5%float))
             (apply installEn (Deliver (changePhase "verifyFiles"))
                (apply installEn (Deliver (changeDetail "forge.jar"))
                   (running installEn))))
     = setProgress 50%float (initialState installEn).
Proof.
  pose proof (unknown_phase_only_clears_detail installEn "verifyFiles"
                (apply installEn (Deliver (changeDetail "forge.jar"))
                   (running installEn))
                eq_refl eq_refl)
    as (Hdetail & _ & _ & _ & _ & _ & _ & Hnext & _).
  split.
  - exact Hdetail.
  - rewrite Hnext. reflexivity.
Defined.

(** ** Alerts *)

Lemma assoc_In key l v :
  Localizer.assoc key l = Some v -> In (key, v) l.
Proof.
  induction l as [|[k x] rest IH]; cbn; [discriminate|].
  destruct (String.eqb_spec k key) as [->|_].
  - intros [= ->]. now left.
  - intros H. right. now apply IH.
Qed.

(** A computed read of the table gives the text of an entry or something
    that is not a string. *)
Lemma get_cases t key :
  (exists v, In (key, v) (Localizer.entries t)
             /\ Localizer.get t key = Localizer.JsString v)
  \/ (Localizer.assoc key (Localizer.entries t) = None
      /\ (Localizer.get t key = Localizer.JsInherited key
          \/ Localizer.get t key = Localizer.JsUndefined)).
Proof.
  unfold Localizer.get.
  destruct (Localizer.assoc key (Localizer.entries t)) as [v|] eqn:Hassoc.
  - left. exists v. split; [now apply assoc_In | reflexivity].
  - right. split; [reflexivity|].
    destruct (existsb _ _); [now left | now right].
Qed.

(** C6, the claim as stated fails: the key [alertOnMissingJava] is in no
    table; the alert that is appended for it has the message [undefined],
    not the key. *)
Lemma addAlert_unknown_key_shows_no_text :
  alerts (listener installEn (addAlert "warning" "alertOnMissingJava")
            (initialState installEn))
    = [ {| level := "warning"; message := Localizer.JsUndefined |} ]
  /\ Localizer.JsUndefined <> Localizer.JsString "alertOnMissingJava"
  /\ outcome (listener installEn (addAlert "warning" "alertOnMissingJava")
                (initialState installEn))
     = Running.
Proof.
  split; [reflexivity | split; [discriminate | reflexivity]].
Qed.

(** Removing by position. *)
Lemma filterFrom_keeps_later {A} (l : list A) :
  forall k j, k < j ->
    filterFrom (fun _ i => negb (Nat.eqb i k)) j l = l.
Proof.
  induction l as [|x rest IH]; intros k j Hlt; cbn; [reflexivity|].
  destruct (Nat.eqb_spec j k) as [->|_]; [lia|]. cbn.
  f_equal. apply IH. lia.
Qed.

Lemma filterFrom_removes {A} (pre : list A) :
  forall a post k,
    filterFrom (fun _ i => negb (Nat.eqb i (k + length pre))) k
      (pre ++ a :: post)%list
    = (pre ++ post)%list.
Proof.
  induction pre as [|x pre IH]; intros a post k; cbn.
  - rewrite Nat.add_0_r, Nat.eqb_refl. cbn.
    apply filterFrom_keeps_later. lia.
  - destruct (Nat.eqb_spec k (k + S (length pre))) as [Heq|_]; [lia|]. cbn.
    f_equal. rewrite <- Nat.add_succ_comm. apply IH.
Qed.

(** C9.  Closing the alert shown at a position removes that alert and keeps
    all the others in their order: for a queue [pre ++ a :: post], closing
    the alert at position [length pre] leaves [pre ++ post], and no other
    cell changes; in particular closing [B] in [A; B; C] leaves [A; C]. *)
Theorem onCloseAlert_removes_exactly_that_alert :
  forall pre a post s A B C,
    alerts (onCloseAlert (length pre)
              (setAlerts (fun _ => (pre ++ a :: post)%list) s))
      = (pre ++ post)%list
    /\ alerts (onCloseAlert 1 (setAlerts (fun _ => [A; B; C]) s)) = [A; C]
    /\ phase (onCloseAlert (length pre) s) = phase s
    /\ detail (onCloseAlert (length pre) s) = detail s
    /\ progress (onCloseAlert (length pre) s) = progress s
    /\ outcome (onCloseAlert (length pre) s) = outcome s.
Proof.
  intros pre a post s A B C.
  repeat split.
  unfold onCloseAlert, filter; cbn.
  apply (filterFrom_removes pre a post 0).
Qed.

(* ================================================================== *)
(** ** Properties of an instance *)
(* ================================================================== *)

(** Every action the environment can take preserves the invariant. *)
Lemma apply_invariant props a w :
  invariant w -> enabled a w = true -> invariant (apply props a w).
Proof.
  unfold invariant.
  intros (Hguard & Hcount & Hsub & Hcells) Hen.
  destruct a as [ | | | payload | | e | index | ]; cbn [apply enabled] in *.
  - (* RunEffect: past the guard only from [NotStarted] *)
    unfold effect.
    destruct (isInstalling w) eqn:Hflag; [close_invariant|].
    rewrite (Hguard eq_refl) in *. cbn.
    close_invariant.
  - (* RunCleanup: only [subscribed] changes *)
    unfold cleanup.
    destruct (unlisten w) as [[]|] eqn:Hun;
      [|rewrite Hun; close_invariant].
    cbn.
    destruct (await w); destruct Hsub; close_invariant.
  - (* ListenResolved *)
    destruct (await w) eqn:Haw; try discriminate.
    unfold onListenResolved; cbn.
    close_invariant.
  - (* Deliver: the listener leaves the outcome alone *)
    unfold deliver.
    destruct (subscribed w) eqn:Hs; [|rewrite Hs; close_invariant].
    unfold withCells; cbn. rewrite Hs.
    rewrite listener_errorMessage, listener_isFinished.
    close_invariant.
  - (* InvokeResolved *)
    destruct (await w) eqn:Haw; try discriminate.
    unfold settle; cbn.
    close_invariant.
  - (* InvokeRejected *)
    destruct (await w) eqn:Haw; try discriminate.
    unfold settle; cbn.
    close_invariant.
  - (* CloseAlert *)
    unfold withCells; cbn. close_invariant.
  - (* CloseErrorDialog *)
    unfold withCells; cbn.
    destruct (await w); close_invariant.
Qed.

Lemma exec_invariant props schedule :
  forall w w',
    invariant w -> exec props schedule w = Some w' -> invariant w'.
Proof.
  induction schedule as [|a rest IH]; intros w w' Hinv Hexec; cbn in Hexec.
  - now injection Hexec as <-.
  - destruct (enabled a w) eqn:Hen; [|discriminate].
    apply (IH (apply props a w)); [|assumption].
    now apply apply_invariant.
Qed.

Lemma mount_invariant props : invariant (mount props).
Proof. unfold invariant; cbn. repeat split. Qed.

Lemma reachable_invariant props w :
  reachable props w -> invariant w.
Proof.
  intros [schedule Hexec].
  exact (exec_invariant props schedule _ _ (mount_invariant props) Hexec).
Qed.

Lemma exec_app props s1 :
  forall s2 w,
    exec props (s1 ++ s2) w =
    match exec props s1 w with
    | Some w1 => exec props s2 w1
    | None => None
    end.
Proof.
  induction s1 as [|a rest IH]; intros s2 w; cbn; [reflexivity|].
  destruct (enabled a w); [apply IH | reflexivity].
Qed.

Lemma reachable_exec props schedule w w' :
  reachable props w -> exec props schedule w = Some w' -> reachable props w'.
Proof.
  intros [before Hbefore] Hexec.
  exists (before ++ schedule)%list.
  now rewrite exec_app, Hbefore.
Qed.

(** C7.  In every state an instance can reach, [run_installer] has been
    invoked at most once, and not at all while the guard is unset.  Running
    the effect sets the guard; whenever the guard is set, running the effect
    again changes nothing (no second subscription, no second invocation),
    and whatever happens afterwards the number of invocations stays at most
    one. *)
Theorem effect_runs_installer_at_most_once :
  forall props w,
    reachable props w ->
    invocations w <= 1
    /\ (isInstalling w = false -> invocations w = 0)
    /\ isInstalling (apply props RunEffect w) = true
    /\ (isInstalling w = true -> apply props RunEffect w = w)
    /\ (forall schedule w',
          exec props schedule w = Some w' -> invocations w' <= 1).
Proof.
  intros props w Hreach.
  pose proof (reachable_invariant _ _ Hreach) as (Hguard & Hcount & _ & _).
  repeat split.
  - rewrite Hcount. destruct (await w); lia.
  - intros Hflag. now rewrite Hcount, (Hguard Hflag).
  - cbn. unfold effect. now destruct (isInstalling w) eqn:Hflag.
  - intros Hflag. cbn. unfold effect. now rewrite Hflag.
  - intros schedule w' Hexec.
    pose proof (reachable_invariant _ _ (reachable_exec _ _ _ _ Hreach Hexec))
      as (_ & Hcount' & _ & _).
    rewrite Hcount'. destruct (await w'); lia.
Qed.

(** A double mount: the effect, its cleanup and the effect again, before
    [listen] resolves. *)
Lemma effect_runs_installer_at_most_once_witness :
  exists w,
    exec installEn [RunEffect; RunCleanup; RunEffect; ListenResolved]
      (mount installEn) = Some w
    /\ invocations w <= 1
    /\ apply installEn RunEffect w = w.
Proof.
  eexists. split; [reflexivity|].
  pose proof (effect_runs_installer_at_most_once installEn _
                (ex_intro _ [RunEffect; RunCleanup; RunEffect; ListenResolved]
                   eq_refl))
    as (Hle & _ & _ & Hnoop & _).
  split; [exact Hle | exact (Hnoop eq_refl)].
Defined.

(** ** The end of a run *)

(** C2, the claim as stated fails: the run has finished (or failed), the
    listener is still registered, and a payload that arrives afterwards
    changes the cells. *)
Lemma late_event_changes_ended_run :
  (exists w,
      exec installEn [RunEffect; ListenResolved; InvokeResolved]
        (mount installEn) = Some w
      /\ outcome (cells w) = Finished
      /\ subscribed w = true
      /\ detail (cells w) = ""
      /\ detail (cells (apply installEn (Deliver (changeDetail "mods/late.jar")) w))
         = "mods/late.jar")
  /\ (exists w,
        exec updateEn
          [RunEffect; ListenResolved; InvokeRejected (ThrownString "disk full")]
          (mount updateEn) = Some w
        /\ outcome (cells w) = Errored "disk full"
        /\ subscribed w = true
        /\ phase (cells w) = "Starting installation..."
        /\ phase (cells (apply updateEn (Deliver (changePhase "removeMods")) w))
           = "Removing unnecessary mods...").
Proof.
  split; eexists; (split; [reflexivity|]); repeat split.
Qed.

(** C4 (as amended).  When [run_installer] returns, the run is [Finished],
    [phase] is the finish label of the mode and [detail] is empty, while
    [progress] and the alerts keep the values they had (the progress bar is
    no longer rendered).  When it fails with
    [e], the run is [Errored] with the string form of [e] (a thrown
    [disk full] gives [Errored "disk full"]) and no other cell changes: the
    framing for the mode is not stored, the dialog puts it in front of the
    message when it renders. *)
Theorem run_settles_as_finished_or_errored :
  forall props w,
    reachable props w ->
    await w = AwaitInvoke ->
    (outcome (cells (apply props InvokeResolved w)) = Finished
     /\ (mode props = install ->
         phase (cells (apply props InvokeResolved w))
         = Localizer.phaseFinishInstall (translation props))
     /\ (mode props = update ->
         phase (cells (apply props InvokeResolved w))
         = Localizer.phaseFinishUpdate (translation props))
     /\ detail (cells (apply props InvokeResolved w)) = ""
     /\ progress (cells (apply props InvokeResolved w)) = progress (cells w)
     /\ linearProgress (cells (apply props InvokeResolved w)) = None
     /\ alerts (cells (apply props InvokeResolved w)) = alerts (cells w)
     /\ await (apply props InvokeResolved w) = Settled)
    /\ (forall e,
          outcome (cells (apply props (InvokeRejected e) w))
            = Errored (errorText e)
          /\ cells (apply props (InvokeRejected e) w)
             = setErrorMessage (Some (errorText e)) (cells w)
          /\ (mode props = install ->
              dialogContentText props (cells (apply props (InvokeRejected e) w))
              = Localizer.installFailed (translation props) ++ errorText e)
          /\ (mode props = update ->
              dialogContentText props (cells (apply props (InvokeRejected e) w))
              = Localizer.updateFailed (translation props) ++ errorText e)
          /\ await (apply props (InvokeRejected e) w) = Settled)
    /\ errorText (ThrownString "disk full") = "disk full".
Proof.
  intros props w Hreach Haw.
  pose proof (reachable_invariant _ _ Hreach) as (_ & _ & _ & Hcells).
  rewrite Haw in Hcells. destruct Hcells as [Herr Hfin].
  split; [|split; [|reflexivity]].
  - cbn. unfold outcome; cbn. rewrite Herr.
    repeat split; intros Hmode; now rewrite Hmode.
  - intros e. cbn. unfold outcome, dialogContentText; cbn.
    repeat split; intros Hmode; now rewrite Hmode.
Qed.

(** The run of an update fails with [disk full]. *)
Lemma run_settles_as_finished_or_errored_witness :
  outcome (cells (apply updateEn (InvokeRejected (ThrownString "disk full"))
                    (running updateEn)))
    = Errored "disk full"
  /\ dialogContentText updateEn
       (cells (apply updateEn (InvokeRejected (ThrownString "disk full"))
                 (running updateEn)))
     = "Update failed." ++ LF ++ "Details: disk full"
  /\ phase (cells (apply updateEn InvokeResolved (running updateEn)))
     = "Update finished.".
Proof.
  pose proof (run_settles_as_finished_or_errored updateEn (running updateEn)
                (ex_intro _ [RunEffect; ListenResolved] eq_refl) eq_refl)
    as ((_ & _ & Hlabel & _) & Hfail & _).
  destruct (Hfail (ThrownString "disk full")) as (Hout & _ & _ & Htext & _).
  split; [exact Hout|].
  split; [exact (Htext eq_refl) | exact (Hlabel eq_refl)].
Defined.

(** C4, the claim as stated fails: in the install run with the events
    [changePhase downloadModLoader], [updateProgress 0.5],
    [changePhase downloadMods], [updateProgress 1.0] the call returns and
    the run is [Finished] with the finish label, but [progress] is the 100
    of the last event, not 0. *)
Lemma finished_run_keeps_last_progress :
  exists w,
    exec installEn
      [RunEffect; ListenResolved;
       Deliver (changePhase "downloadModLoader");
       Deliver (updateProgress 0.5%float);
       Deliver (changePhase "downloadMods");
       Deliver (updateProgress 1%float);
       InvokeResolved]
      (mount installEn) = Some w
    /\ outcome (cells w) = Finished
    /\ phase (cells w) = "Installation finished."
    /\ detail (cells w) = ""
    /\ progress (cells w) = 100%float
    /\ progress (cells w) <> 0%float.
Proof.
  eexists. split; [reflexivity|].
  repeat split. float_neq.
Qed.

(* ================================================================== *)
(** ** A run as a sequence of payloads *)
(* ================================================================== *)

Lemma last_cons_default {A} (l : list A) :
  forall a d, last (a :: l) d = last l a.
Proof.
  induction l as [|b l IH]; intros a d; [reflexivity|].
  change (last (a :: b :: l) d) with (last (b :: l) d).
  now rewrite !IH.
Qed.

Lemma last_app_default {A} (l1 l2 : list A) :
  forall d, last (l1 ++ l2) d = last l2 (last l1 d).
Proof.
  induction l1 as [|a l1 IH]; intros d; [reflexivity|].
  change ((a :: l1) ++ l2)%list with (a :: (l1 ++ l2))%list.
  now rewrite !last_cons_default, IH.
Qed.

(** A cell whose value after one payload is the last thing the payload
    wrote to it holds, after a sequence, the last thing written at all. *)
Lemma listenAll_last_write {A} props (cell : RunState -> A)
      (write : InstallerEvent -> list A) :
  (forall payload s,
      cell (listener props payload s) = last (write payload) (cell s)) ->
  forall payloads s,
    cell (Stream.listenAll props payloads s)
    = last (flat_map write payloads) (cell s).
Proof.
  intros Hone payloads.
  induction payloads as [|payload rest IH]; intros s; [reflexivity|].
  cbn [flat_map]. rewrite last_app_default, <- Hone.
  apply IH.
Qed.

(** X1.  After any sequence of payloads the phase shown is the label of the
    last [changePhase] payload with a known tag, and the phase before the
    sequence when there is none: phases follow the order of emission and a
    later payload of another kind never disturbs the phase. *)
Theorem phase_follows_last_known_changePhase :
  forall props payloads s,
    phase (Stream.listenAll props payloads s)
    = last (flat_map (Stream.phaseWrite (translation props)) payloads)
        (phase s).
Proof.
  intros props. apply listenAll_last_write.
  intros payload s.
  destruct payload as [tag | d | p | lvl key]; try reflexivity.
  cbn [listener Stream.phaseWrite]. rewrite switchPhase_label.
  destruct (phaseLabel (translation props) tag); reflexivity.
Qed.

(** X2.  After any sequence of payloads the queue of alerts is the queue
    before it followed by one alert per [addAlert] payload, in the order of
    arrival: none is dropped, merged with an equal one, or reordered, and no
    other payload touches the queue. *)
Theorem alerts_accumulate_in_arrival_order :
  forall props payloads s,
    alerts (Stream.listenAll props payloads s)
    = (alerts s
       ++ flat_map (Stream.alertWrite (translation props)) payloads)%list.
Proof.
  intros props payloads.
  induction payloads as [|payload rest IH]; intros s.
  - cbn. now rewrite app_nil_r.
  - change (Stream.listenAll props (payload :: rest) s)
      with (Stream.listenAll props rest (listener props payload s)).
    rewrite IH. cbn [flat_map]. rewrite app_assoc. f_equal.
    destruct payload as [tag | d | p | lvl key]; cbn [Stream.alertWrite];
      rewrite ?app_nil_r; try reflexivity.
    cbn [listener]. rewrite switchPhase_label.
    destruct (phaseLabel (translation props) tag); reflexivity.
Qed.

(** X3.  After any sequence of payloads [detail] is the text of the last
    [changeDetail] payload, verbatim, unless a [changePhase] payload (known
    tag or not) came after it, in which case it is empty; [progress] is the
    rounded percentage of the last [updateProgress] payload, whatever phase
    changes came after it. *)
Theorem detail_and_progress_follow_last_write :
  forall props payloads s,
    detail (Stream.listenAll props payloads s)
    = last (flat_map Stream.detailWrite payloads) (detail s)
    /\ progress (Stream.listenAll props payloads s)
       = last (flat_map Stream.progressWrite payloads) (progress s).
Proof.
  intros props payloads s. split.
  - revert payloads s. apply listenAll_last_write.
    intros payload s.
    destruct payload as [tag | d | p | lvl key]; try reflexivity.
    cbn [listener Stream.detailWrite]. rewrite switchPhase_label.
    destruct (phaseLabel (translation props) tag); reflexivity.
  - revert payloads s. apply listenAll_last_write.
    intros payload s.
    destruct payload as [tag | d | p | lvl key]; try reflexivity.
    cbn [listener Stream.progressWrite]. rewrite switchPhase_label.
    destruct (phaseLabel (translation props) tag); reflexivity.
Qed.

(* ================================================================== *)
(** ** More on the lifetime of an instance *)
(* ================================================================== *)

(** X5.  A cleanup that runs while [listen] has not resolved yet (a
    teardown right after mounting, or the double mount of strict mode)
    releases nothing and cancels nothing: the instance is unchanged, the
    listener is registered all the same when [listen] resolves,
    [run_installer] is invoked, and running the effect again does not start
    over. *)
Theorem cleanup_before_listen_resolves_releases_nothing :
  forall props w,
    reachable props w ->
    await w = AwaitListen ->
    enabled RunCleanup w = true
    /\ apply props RunCleanup w = w
    /\ apply props RunEffect (apply props RunCleanup w) = w
    /\ enabled ListenResolved (apply props RunCleanup w) = true
    /\ subscribed (apply props ListenResolved (apply props RunCleanup w))
       = true
    /\ invocations (apply props ListenResolved (apply props RunCleanup w))
       = 1.
Proof.
  intros props w Hreach Haw.
  pose proof (reachable_invariant _ _ Hreach) as (Hguard & Hcount & Hun & _).
  rewrite Haw in Hun, Hcount. destruct Hun as [_ Hun].
  assert (Hflag : isInstalling w = true).
  { destruct (isInstalling w); [reflexivity|].
    specialize (Hguard eq_refl). congruence. }
  assert (Hsame : apply props RunCleanup w = w).
  { cbn. unfold cleanup. now rewrite Hun. }
  rewrite Hsame. cbn. unfold effect. rewrite Hflag, Haw, Hcount.
  now repeat split.
Qed.

Lemma cleanup_before_listen_resolves_releases_nothing_witness :
  exec installEn [RunEffect; RunCleanup; RunEffect; ListenResolved]
    (mount installEn)
    = Some (running installEn)
  /\ subscribed (apply installEn ListenResolved
                  (apply installEn RunCleanup (effect (mount installEn))))
     = true.
Proof.
  split; [reflexivity|].
  exact (proj1 (proj2 (proj2 (proj2 (proj2
    (cleanup_before_listen_resolves_releases_nothing installEn
       (effect (mount installEn))
       (ex_intro _ [RunEffect] eq_refl) eq_refl)))))).
Defined.

(** An invariant over schedules, for any property. *)
Lemma exec_preserves props (P : Instance -> Prop) :
  (forall a w, P w -> enabled a w = true -> P (apply props a w)) ->
  forall schedule w w',
    P w -> exec props schedule w = Some w' -> P w'.
Proof.
  intros Hstep schedule.
  induction schedule as [|a rest IH]; intros w w' HP Hexec; cbn in Hexec.
  - now injection Hexec as <-.
  - destruct (enabled a w) eqn:Hen; [|discriminate].
    exact (IH _ _ (Hstep _ _ HP Hen) Hexec).
Qed.

Lemma finished_without_error_step props a w :
  invariant w /\ (isFinished (cells w) = true -> errorMessage (cells w) = None) ->
  enabled a w = true ->
  invariant (apply props a w)
  /\ (isFinished (cells (apply props a w)) = true ->
      errorMessage (cells (apply props a w)) = None).
Proof.
  intros [Hinv Hfin] Hen.
  split; [now apply apply_invariant|].
  destruct Hinv as (_ & _ & _ & Hcells).
  destruct a as [ | | | payload | | e | index | ]; cbn [apply enabled] in *.
  - unfold effect. destruct (isInstalling w); exact Hfin.
  - unfold cleanup. destruct (unlisten w) as [[]|]; exact Hfin.
  - exact Hfin.
  - unfold deliver. destruct (subscribed w); [|exact Hfin].
    unfold withCells; cbn.
    now rewrite listener_errorMessage, listener_isFinished.
  - destruct (await w); try discriminate. cbn. intros _. tauto.
  - destruct (await w); try discriminate. cbn.
    destruct Hcells as [_ Hnot]. rewrite Hnot. discriminate.
  - exact Hfin.
  - cbn. reflexivity.
Qed.

(** X7.  In every state an instance can reach, the run is never finished
    and failed at once: when [isFinished] is set there is no error message,
    and when there is an error message [isFinished] is not set; either of
    them means that [run_installer] has settled. *)
Theorem run_is_never_finished_and_failed :
  forall props w,
    reachable props w ->
    (isFinished (cells w) = true ->
     errorMessage (cells w) = None /\ await w = Settled)
    /\ (forall m, errorMessage (cells w) = Some m ->
                  isFinished (cells w) = false /\ await w = Settled).
Proof.
  intros props w [schedule Hexec].
  assert (Hboth : invariant w
                  /\ (isFinished (cells w) = true ->
                      errorMessage (cells w) = None)).
  { apply (exec_preserves props
             (fun w => invariant w
                       /\ (isFinished (cells w) = true ->
                           errorMessage (cells w) = None))
             (finished_without_error_step props)
             schedule (mount props) w); [|exact Hexec].
    split; [apply mount_invariant | discriminate]. }
  destruct Hboth as [(_ & _ & _ & Hcells) Hfin].
  split.
  - intros Hset. split; [now apply Hfin|].
    destruct (await w); try reflexivity; destruct Hcells; congruence.
  - intros m Herr. split.
    + destruct (isFinished (cells w)); [|reflexivity].
      specialize (Hfin eq_refl). congruence.
    + destruct (await w); try reflexivity; destruct Hcells; congruence.
Qed.

Lemma run_is_never_finished_and_failed_witness :
  errorMessage (cells (apply installEn InvokeResolved (running installEn)))
    = None
  /\ isFinished
       (cells (apply updateEn (InvokeRejected (ThrownString "disk full"))
                 (running updateEn)))
     = false.
Proof.
  split.
  - exact (proj1 (proj1 (run_is_never_finished_and_failed installEn
                           (apply installEn InvokeResolved (running installEn))
                           (ex_intro _ [RunEffect; ListenResolved; InvokeResolved]
                              eq_refl))
                    eq_refl)).
  - exact (proj1 (proj2 (run_is_never_finished_and_failed updateEn
                           (apply updateEn
                              (InvokeRejected (ThrownString "disk full"))
                              (running updateEn))
                           (ex_intro _
                              [RunEffect; ListenResolved;
                               InvokeRejected (ThrownString "disk full")]
                              eq_refl))
                    "disk full" eq_refl)).
Defined.

Lemma settled_step props (finished : bool) (err : option string) a w :
  invariant w /\ await w = Settled
  /\ isFinished (cells w) = finished
  /\ (errorMessage (cells w) = err \/ errorMessage (cells w) = None) ->
  enabled a w = true ->
  invariant (apply props a w) /\ await (apply props a w) = Settled
  /\ isFinished (cells (apply props a w)) = finished
  /\ (errorMessage (cells (apply props a w)) = err
      \/ errorMessage (cells (apply props a w)) = None).
Proof.
  intros (Hinv & Haw & Hfin & Herr) Hen.
  split; [now apply apply_invariant|].
  destruct Hinv as (Hguard & _).
  destruct a as [ | | | payload | | e | index | ]; cbn [apply enabled] in *.
  - unfold effect. destruct (isInstalling w) eqn:Hflag; [now repeat split|].
    specialize (Hguard eq_refl). congruence.
  - unfold cleanup. destruct (unlisten w) as [[]|]; now repeat split.
  - rewrite Haw in Hen. discriminate.
  - unfold deliver. destruct (subscribed w); [|now repeat split].
    unfold withCells; cbn.
    rewrite listener_errorMessage, listener_isFinished. now repeat split.
  - rewrite Haw in Hen. discriminate.
  - rewrite Haw in Hen. discriminate.
  - now repeat split.
  - cbn. repeat split; auto.
Qed.

(** X8.  A run settles once.  After [run_installer] has returned or failed,
    whatever happens to the instance (late payloads, closing alerts or the
    error dialog, cleanups, the effect running again) the promise stays
    settled: no second success or failure is taken, [isFinished] keeps its
    value, the error message is the one of the failure until the dialog is
    closed and is never replaced by another, and [run_installer] has been
    invoked exactly once. *)
Theorem settled_run_stays_settled :
  forall props w schedule w',
    reachable props w ->
    await w = Settled ->
    exec props schedule w = Some w' ->
    await w' = Settled
    /\ isFinished (cells w') = isFinished (cells w)
    /\ (errorMessage (cells w') = errorMessage (cells w)
        \/ errorMessage (cells w') = None)
    /\ enabled InvokeResolved w' = false
    /\ (forall e, enabled (InvokeRejected e) w' = false)
    /\ invocations w' = 1.
Proof.
  intros props w schedule w' Hreach Haw Hexec.
  pose proof (exec_preserves props _
                (settled_step props (isFinished (cells w))
                   (errorMessage (cells w)))
                schedule w w') as Hkeep.
  destruct Hkeep as ((_ & Hcount & _) & Haw' & Hfin & Herr);
    [|exact Hexec|].
  - split; [now apply reachable_invariant with (props := props)|].
    repeat split; auto.
  - cbn. rewrite Haw' in *. repeat split; auto.
Qed.

Lemma settled_run_stays_settled_witness :
  exists w',
    exec updateEn
      [Deliver (changePhase "removeMods"); CloseErrorDialog; RunCleanup;
       RunEffect; Deliver (updateProgress 1%float)]
      (apply updateEn (InvokeRejected (ThrownString "disk full"))
         (running updateEn))
    = Some w'
    /\ await w' = Settled
    /\ isFinished (cells w') = false
    /\ invocations w' = 1.
Proof.
  eexists. split; [reflexivity|].
  destruct (settled_run_stays_settled updateEn
              (apply updateEn (InvokeRejected (ThrownString "disk full"))
                 (running updateEn))
              [Deliver (changePhase "removeMods"); CloseErrorDialog;
               RunCleanup; RunEffect; Deliver (updateProgress 1%float)]
              _
              (ex_intro _
                 [RunEffect; ListenResolved;
                  InvokeRejected (ThrownString "disk full")]
                 eq_refl)
              eq_refl eq_refl)
    as (Haw & Hfin & _ & _ & _ & Hcount).
  split; [exact Haw|]. split; [exact Hfin | exact Hcount].
Defined.

(* ================================================================== *)
(** ** More on the queue of alerts *)
(* ================================================================== *)

Lemma filterFrom_position {A} (l : list A) :
  forall index k,
    filterFrom (fun _ i => negb (Nat.eqb i (k + index))) k l
    = (firstn index l ++ skipn (S index) l)%list.
Proof.
  induction l as [|x rest IH]; intros index k.
  - now destruct index.
  - destruct index as [|index]; cbn [filterFrom firstn skipn app].
    + rewrite Nat.add_0_r, Nat.eqb_refl. cbn [negb].
      apply filterFrom_keeps_later. lia.
    + destruct (Nat.eqb_spec k (k + S index)) as [Heq|_]; [lia|].
      cbn [negb]. f_equal.
      rewrite <- Nat.add_succ_comm. apply IH.
Qed.

Lemma onCloseAlert_alerts index s :
  alerts (onCloseAlert index s)
  = (firstn index (alerts s) ++ skipn (S index) (alerts s))%list.
Proof.
  unfold onCloseAlert, filter; cbn.
  exact (filterFrom_position (alerts s) index 0).
Qed.

(** X9.  Closing by position, in all cases: the queue loses the alert at
    the position and nothing else.  A position inside the queue shortens it
    by exactly one; a position at or beyond its end (an empty queue, a click
    on an alert that is no longer there) changes nothing at all. *)
Theorem onCloseAlert_by_position :
  forall index s,
    alerts (onCloseAlert index s)
    = (firstn index (alerts s) ++ skipn (S index) (alerts s))%list
    /\ (index < length (alerts s) ->
        S (length (alerts (onCloseAlert index s))) = length (alerts s))
    /\ (length (alerts s) <= index -> onCloseAlert index s = s).
Proof.
  intros index s. split; [apply onCloseAlert_alerts|]. split.
  - intros Hin. rewrite onCloseAlert_alerts.
    rewrite length_app, length_firstn, length_skipn. lia.
  - intros Hout.
    assert (Hsame : alerts (onCloseAlert index s) = alerts s).
    { rewrite onCloseAlert_alerts.
      rewrite firstn_all2 by exact Hout.
      rewrite skipn_all2 by lia.
      apply app_nil_r. }
    destruct s as [ph de pr fi al er]. cbn in Hsame |- *.
    unfold onCloseAlert, setAlerts; cbn. f_equal. exact Hsame.
Qed.

Lemma onCloseAlert_by_position_witness :
  length (alerts (onCloseAlert 0
                    (listener installEn (addAlert "info" "alertOnLaunchModLoader")
                       (initialState installEn))))
    = 0
  /\ onCloseAlert 0 (initialState installEn) = initialState installEn.
Proof.
  destruct (onCloseAlert_by_position 0
              (listener installEn (addAlert "info" "alertOnLaunchModLoader")
                 (initialState installEn)))
    as (_ & Hin & _).
  destruct (onCloseAlert_by_position 0 (initialState installEn))
    as (_ & _ & Hout).
  split.
  - exact (eq_add_S _ _ (Hin (Nat.lt_0_succ 0))).
  - exact (Hout (Nat.le_0_l 0)).
Defined.

(** X10.  A payload that arrives between the rendering of an alert and the
    click that closes it does not make the click hit another alert: for a
    position inside the queue, closing after the payload was handled gives
    the same state as handling the payload after closing.  New alerts go to
    the end, so the positions of the alerts on screen do not move. *)
Theorem onCloseAlert_commutes_with_payload :
  forall props payload index s,
    index < length (alerts s) ->
    onCloseAlert index (listener props payload s)
    = listener props payload (onCloseAlert index s).
Proof.
  intros props payload index s Hin.
  destruct payload as [tag | d | p | lvl key]; try reflexivity.
  - cbn [listener]. rewrite !switchPhase_label.
    destruct (phaseLabel (translation props) tag); reflexivity.
  - cbn [listener].
    unfold onCloseAlert, setAlerts, filter; cbn. f_equal.
    rewrite (filterFrom_position _ index 0), (filterFrom_position _ index 0).
    rewrite firstn_app, skipn_app.
    replace (index - length (alerts s)) with 0 by lia.
    replace (S index - length (alerts s)) with 0 by lia.
    cbn [firstn skipn]. now rewrite app_nil_r, app_assoc.
Qed.

Lemma onCloseAlert_commutes_with_payload_witness :
  alerts
    (onCloseAlert 0
       (listener installEn (addAlert "warning" "alertOnFailedAddProfile")
          (listener installEn (addAlert "info" "alertOnLaunchModLoader")
             (initialState installEn))))
  = [ {| level := "warning";
         message :=
           Localizer.JsString
             (Localizer.alertOnFailedAddProfile Localizer.translations_en) |} ].
Proof.
  rewrite (onCloseAlert_commutes_with_payload installEn
             (addAlert "warning" "alertOnFailedAddProfile") 0
             (listener installEn (addAlert "info" "alertOnLaunchModLoader")
                (initialState installEn))
             (Nat.lt_0_succ 0)).
  reflexivity.
Defined.

(* ================================================================== *)
(** ** More on [App] *)
(* ================================================================== *)

(** X11.  Accepting a mode and dismissing the failed run afterwards is a
    round trip: from a title screen with no mode selected, [App] is back in
    exactly the state it was in before the mode was chosen, so another mode
    can be selected as if nothing had happened. *)
Theorem accept_then_dismiss_restores_app :
  forall t mode result a,
    App.isAccept result = true ->
    App.screen a = App.title ->
    App.installerMode a = None ->
    App.onDismissError (App.onModeSelect t mode result a) = a.
Proof.
  intros t mode result a Haccept Hscreen Hmode.
  unfold App.onModeSelect. rewrite Haccept. cbn.
  destruct a as [st lang scr im err]. cbn in *. now subst.
Qed.

Lemma accept_then_dismiss_restores_app_witness :
  App.onDismissError
    (App.onModeSelect Localizer.translations_ja update
       {| App.isAccept := true; App.error := None |}
       App.initialState)
  = App.initialState.
Proof.
  exact (accept_then_dismiss_restores_app Localizer.translations_ja update
           {| App.isAccept := true; App.error := None |}
           App.initialState eq_refl eq_refl eq_refl).
Defined.

(** X12.  The message shown for a refused mode never ends with the bare
    header: after the header comes a detail that is not empty, either the
    error of the answer or, when the answer has no error or an empty one,
    the literal [<unknown error>]. *)
Theorem refusal_always_shows_a_detail :
  forall t mode result a,
    App.isAccept result = false ->
    exists d,
      App.errorMessage (App.onModeSelect t mode result a)
      = Some (Localizer.occurredError t ++ d)
      /\ d <> ""
      /\ (App.error result = Some d
          \/ (d = "<unknown error>"
              /\ (App.error result = None \/ App.error result = Some ""))).
Proof.
  intros t mode result a Hrefused.
  unfold App.onModeSelect. rewrite Hrefused. cbn.
  destruct (App.error result) as [[|c rest]|]; cbn.
  - exists "<unknown error>". repeat split; [discriminate | auto].
  - exists (String c rest). repeat split; [discriminate | auto].
  - exists "<unknown error>". repeat split; [discriminate | auto].
Qed.

Lemma refusal_always_shows_a_detail_witness :
  exists d,
    App.errorMessage
      (App.onModeSelect Localizer.translations_en update
         {| App.isAccept := false; App.error := Some "" |}
         App.initialState)
    = Some (Localizer.occurredError Localizer.translations_en ++ d)
    /\ d <> "".
Proof.
  destruct (refusal_always_shows_a_detail Localizer.translations_en update
              {| App.isAccept := false; App.error := Some "" |}
              App.initialState eq_refl)
    as (d & Hshown & Hnonempty & _).
  exists d. split; [exact Hshown | exact Hnonempty].
Defined.

Lemma AppLife_apply_invariant a w :
  AppLife.invariant w -> AppLife.enabled a w = true ->
  AppLife.invariant (AppLife.apply a w).
Proof.
  unfold AppLife.invariant.
  intros (Hcount & Hpending & Hguard & Hscreen) Hen.
  destruct a as [ | status | t mode result | | l | ];
    cbn [AppLife.apply AppLife.enabled] in *.
  - (* RunEffect *)
    unfold AppLife.effect.
    destruct (AppLife.isInitialized w) eqn:Hflag.
    + rewrite Hflag. close_invariant.
    + cbn. close_invariant.
  - (* InitializeResolved *)
    cbn. destruct (Hpending Hen) as [Hflag _].
    rewrite Hflag in *. close_invariant.
  - (* ModeAnswered *)
    cbn. unfold App.onModeSelect.
    destruct (negb (App.isAccept result)); cbn;
      repeat split; eauto; tauto.
  - (* DismissError *)
    cbn. close_invariant.
  - (* LanguageChange *)
    cbn. close_invariant.
  - (* CloseDialog *)
    cbn. close_invariant.
Qed.

Lemma AppLife_reachable_invariant w :
  AppLife.reachable w -> AppLife.invariant w.
Proof.
  intros [schedule Hexec].
  assert (Hgen : forall w0, AppLife.invariant w0 ->
                            AppLife.exec schedule w0 = Some w ->
                            AppLife.invariant w).
  { clear Hexec.
    induction schedule as [|a rest IH]; intros w0 Hinv Hexec; cbn in Hexec.
    - now injection Hexec as <-.
    - destruct (AppLife.enabled a w0) eqn:Hen; [|discriminate].
      exact (IH _ (AppLife_apply_invariant _ _ Hinv Hen) Hexec). }
  apply (Hgen AppLife.mount); [|exact Hexec].
  unfold AppLife.invariant; cbn. repeat split; discriminate.
Qed.

(** X13.  Whatever answers, dismissals, language changes and dialog
    closings [App] goes through, the installer screen is never rendered
    without a mode (the non-null assertion [installerMode!] always holds),
    and while the title screen is rendered the mode cell is empty. *)
Theorem installer_screen_always_has_a_mode :
  forall w,
    AppLife.reachable w ->
    match App.getScreen (AppLife.state w) with
    | App.InstallerScreenOf m _ => exists mode, m = Some mode
    | App.TitleScreen _ => App.installerMode (AppLife.state w) = None
    end.
Proof.
  intros w Hreach.
  destruct (AppLife_reachable_invariant _ Hreach) as (_ & _ & _ & Hscreen).
  unfold App.getScreen.
  destruct (App.screen (AppLife.state w)); exact Hscreen.
Qed.

Lemma installer_screen_always_has_a_mode_witness :
  exists mode,
    App.installerMode
      (App.onLanguageChange Localizer.en
         (App.onModeSelect Localizer.translations_ja install
            {| App.isAccept := true; App.error := None |}
            (App.onModeSelect Localizer.translations_ja update
               {| App.isAccept := false; App.error := None |}
               App.initialState)))
    = Some mode.
Proof.
  exact (installer_screen_always_has_a_mode _
           (ex_intro _
              [AppLife.RunEffect;
               AppLife.ModeAnswered Localizer.translations_ja update
                 {| App.isAccept := false; App.error := None |};
               AppLife.ModeAnswered Localizer.translations_ja install
                 {| App.isAccept := true; App.error := None |};
               AppLife.LanguageChange Localizer.en]
              eq_refl)).
Defined.

(** X14.  [App] asks for the title status at most once, however often its
    effect runs: with the ref set the effect changes nothing, and the
    backdrop that covers the window is open exactly until the one answer
    has arrived. *)
Theorem app_initializes_once :
  forall w,
    AppLife.reachable w ->
    AppLife.invocations w <= 1
    /\ (AppLife.isInitialized w = true -> AppLife.apply AppLife.RunEffect w = w)
    /\ AppLife.invocations (AppLife.apply AppLife.RunEffect w) = 1
    /\ (AppLife.backdropOpen (AppLife.state w) = false ->
        AppLife.invocations w = 1 /\ AppLife.pending w = false)
    /\ (AppLife.invocations w = 0 ->
        AppLife.backdropOpen (AppLife.state w) = true).
Proof.
  intros w Hreach.
  destruct (AppLife_reachable_invariant _ Hreach)
    as (Hcount & Hpending & Hguard & _).
  unfold AppLife.backdropOpen. cbn [AppLife.apply]. unfold AppLife.effect.
  destruct (AppLife.isInitialized w) eqn:Hflag.
  - repeat split; try lia; try congruence.
    destruct (AppLife.pending w); [|reflexivity].
    destruct (Hpending eq_refl) as [_ Hnone].
    match goal with
    | Hopen : _ = false |- _ => rewrite Hnone in Hopen; discriminate Hopen
    end.
  - rewrite (Hguard eq_refl). cbn.
    repeat split; try lia; try congruence; discriminate.
Qed.

Lemma app_initializes_once_witness :
  AppLife.exec
    [AppLife.RunEffect; AppLife.RunEffect;
     AppLife.InitializeResolved {| App.isExistsConfig := true |};
     AppLife.RunEffect]
    AppLife.mount
  = Some (AppLife.onInitializeResolved {| App.isExistsConfig := true |}
            (AppLife.effect AppLife.mount))
  /\ AppLife.invocations
       (AppLife.onInitializeResolved {| App.isExistsConfig := true |}
          (AppLife.effect AppLife.mount))
     <= 1.
Proof.
  split; [reflexivity|].
  exact (proj1 (app_initializes_once _
                  (ex_intro _
                     [AppLife.RunEffect;
                      AppLife.InitializeResolved
                        {| App.isExistsConfig := true |}]
                     eq_refl))).
Defined.

(* ================================================================== *)
(** ** The title screen *)
(* ================================================================== *)

Lemma TitleScreen_apply_invariant a w :
  TitleScreen.invariant w -> TitleScreen.enabled a w = true ->
  TitleScreen.invariant (TitleScreen.apply a w).
Proof.
  unfold TitleScreen.invariant.
  intros (Hcount & Hpending & Hguard) Hen.
  destruct a as [ | status]; cbn [TitleScreen.apply TitleScreen.enabled] in *.
  - unfold TitleScreen.effect.
    destruct (TitleScreen.isInitialized w) eqn:Hflag.
    + rewrite Hflag. close_invariant.
    + cbn. close_invariant.
  - cbn. destruct (Hpending Hen) as [Hflag _].
    rewrite Hflag in *. close_invariant.
Qed.

Lemma TitleScreen_reachable_invariant w :
  TitleScreen.reachable w -> TitleScreen.invariant w.
Proof.
  intros [schedule Hexec].
  assert (Hgen : forall w0, TitleScreen.invariant w0 ->
                            TitleScreen.exec schedule w0 = Some w ->
                            TitleScreen.invariant w).
  { clear Hexec.
    induction schedule as [|a rest IH]; intros w0 Hinv Hexec; cbn in Hexec.
    - now injection Hexec as <-.
    - destruct (TitleScreen.enabled a w0) eqn:Hen; [|discriminate].
      exact (IH _ (TitleScreen_apply_invariant _ _ Hinv Hen) Hexec). }
  apply (Hgen TitleScreen.mount); [|exact Hexec].
  unfold TitleScreen.invariant; cbn. repeat split; discriminate.
Qed.

(** X15.  The title screen asks for the status at most once, however often
    its effect runs, and offers nothing before the answer: until the status
    has arrived the backdrop is open and no mode can be selected; once it is
    there, the command has been invoked exactly once and no answer is
    outstanding. *)
Theorem title_screen_initializes_once :
  forall t w,
    TitleScreen.reachable w ->
    TitleScreen.invocations w <= 1
    /\ (TitleScreen.isInitialized w = true ->
        TitleScreen.apply TitleScreen.RunEffect w = w)
    /\ (TitleScreen.backdropOpen w = true -> TitleScreen.selectable t w = [])
    /\ (TitleScreen.backdropOpen w = false ->
        TitleScreen.invocations w = 1 /\ TitleScreen.pending w = false).
Proof.
  intros t w Hreach.
  destruct (TitleScreen_reachable_invariant _ Hreach)
    as (Hcount & Hpending & Hguard).
  unfold TitleScreen.backdropOpen, TitleScreen.selectable,
    TitleScreen.renderedButtons.
  cbn [TitleScreen.apply]. unfold TitleScreen.effect.
  destruct (TitleScreen.isInitialized w) eqn:Hflag.
  - destruct (TitleScreen.initializedStatus w) eqn:Hstatus;
      repeat split; intros; try lia; try congruence.
    destruct (TitleScreen.pending w); [|reflexivity].
    destruct (Hpending eq_refl) as [_ Hnone]. discriminate.
  - rewrite (Hguard eq_refl).
    repeat split; intros; try lia; try congruence.
Qed.

Lemma title_screen_initializes_once_witness :
  TitleScreen.exec
    [TitleScreen.RunEffect; TitleScreen.RunEffect;
     TitleScreen.InitializeResolved
       {| TitleScreen.canInstall := true; TitleScreen.canUpdate := false |};
     TitleScreen.RunEffect]
    TitleScreen.mount
  = Some (TitleScreen.onInitializeResolved
            {| TitleScreen.canInstall := true; TitleScreen.canUpdate := false |}
            (TitleScreen.effect TitleScreen.mount))
  /\ TitleScreen.invocations
       (TitleScreen.onInitializeResolved
          {| TitleScreen.canInstall := true; TitleScreen.canUpdate := false |}
          (TitleScreen.effect TitleScreen.mount))
     = 1
  /\ TitleScreen.selectable Localizer.translations_en
       (TitleScreen.effect TitleScreen.mount)
     = [].
Proof.
  split; [reflexivity|]. split.
  - exact (proj1 (proj2 (proj2 (proj2
             (title_screen_initializes_once Localizer.translations_en _
                (ex_intro _
                   [TitleScreen.RunEffect;
                    TitleScreen.InitializeResolved
                      {| TitleScreen.canInstall := true;
                         TitleScreen.canUpdate := false |}]
                   eq_refl)))) eq_refl)).
  - exact (proj1 (proj2 (proj2
             (title_screen_initializes_once Localizer.translations_en _
                (ex_intro _ [TitleScreen.RunEffect] eq_refl)))) eq_refl).
Defined.

(** X16.  A mode can be selected on the title screen exactly when the
    status has arrived and allows it: [install] when [canInstall], [update]
    when [canUpdate].  The modes on offer are always in the order install,
    update, and with both flags unset nothing can be selected. *)
Theorem selectable_modes_follow_status :
  forall t w mode,
    (In mode (TitleScreen.selectable t w) <->
     exists status,
       TitleScreen.initializedStatus w = Some status
       /\ (match mode with
           | install => TitleScreen.canInstall status
           | update => TitleScreen.canUpdate status
           end) = true)
    /\ (forall status,
          TitleScreen.initializedStatus w = Some status ->
          TitleScreen.selectable t w
          = ((if TitleScreen.canInstall status then [install] else [])
             ++ (if TitleScreen.canUpdate status then [update] else []))%list
          /\ map TitleScreen.onClick (TitleScreen.renderedButtons t w)
             = installerModes
          /\ map TitleScreen.key (TitleScreen.renderedButtons t w)
             = ["title-install"; "title-update"]).
Proof.
  intros t w mode.
  unfold TitleScreen.selectable, TitleScreen.renderedButtons.
  split.
  - destruct (TitleScreen.initializedStatus w) as [[ci cu]|].
    + split.
      * intros Hin. exists {| TitleScreen.canInstall := ci;
                              TitleScreen.canUpdate := cu |}.
        split; [reflexivity|].
        destruct ci, cu, mode; cbn in Hin |- *;
          intuition (try discriminate; auto).
      * intros (status & [= <-] & Hallowed).
        destruct ci, cu, mode; cbn in Hallowed |- *;
          intuition (try discriminate; auto).
    + split; [intros [] | intros (status & Hnone & _); discriminate].
  - intros status ->.
    destruct status as [[] []]; repeat split.
Qed.

Lemma selectable_modes_follow_status_witness :
  TitleScreen.selectable Localizer.translations_en
    (TitleScreen.onInitializeResolved
       {| TitleScreen.canInstall := true; TitleScreen.canUpdate := false |}
       (TitleScreen.effect TitleScreen.mount))
  = [install]
  /\ ~ In update
       (TitleScreen.selectable Localizer.translations_en
          (TitleScreen.onInitializeResolved
             {| TitleScreen.canInstall := true;
                TitleScreen.canUpdate := false |}
             (TitleScreen.effect TitleScreen.mount))).
Proof.
  pose proof (selectable_modes_follow_status Localizer.translations_en
                (TitleScreen.onInitializeResolved
                   {| TitleScreen.canInstall := true;
                      TitleScreen.canUpdate := false |}
                   (TitleScreen.effect TitleScreen.mount)))
    as Hstatus.
  split.
  - exact (proj1 (proj2 (Hstatus install) _ eq_refl)).
  - intros Hin.
    destruct (proj1 (proj1 (Hstatus update)) Hin) as (status & [= <-] & Hno).
    discriminate Hno.
Defined.

(* ================================================================== *)
(** ** The string tables *)
(* ================================================================== *)

(** X17.  Every entry of a string table reads back its own text under its
    own key: no key occurs twice in the table and none is shadowed by a
    member of [Object.prototype], so a computed read with a declared key
    never yields [undefined] or another field's text. *)
Theorem every_entry_reads_back :
  forall t k v,
    In (k, v) (Localizer.entries t) ->
    Localizer.get t k = Localizer.JsString v
    /\ existsb (String.eqb k) Localizer.objectPrototype = false.
Proof.
  intros t k v Hin.
  unfold Localizer.entries in Hin. cbn [In] in Hin.
  repeat (destruct Hin as [Hin | Hin];
          [injection Hin as <- <-; split; reflexivity|]).
  contradiction.
Qed.

Lemma every_entry_reads_back_witness :
  Localizer.get Localizer.translations_ja "phaseRemoveMods"
  = Localizer.JsString (Localizer.phaseRemoveMods Localizer.translations_ja).
Proof.
  refine (proj1 (every_entry_reads_back Localizer.translations_ja
                   "phaseRemoveMods" _ _)).
  unfold Localizer.entries. cbn [In].
  do 22 right. left. reflexivity.
Defined.

(* ================================================================== *)
(** ** The installer screen under React *)
(* ================================================================== *)

Lemma rerender_cells m :
  cells (Lifecycle.instance (Lifecycle.rerender m))
  = cells (Lifecycle.instance m).
Proof.
  unfold Lifecycle.rerender, Lifecycle.unmount.
  destruct (Lifecycle.renders _); [reflexivity|]. cbn.
  destruct (Lifecycle.cleanupHeld m); [|reflexivity].
  unfold cleanup. now destruct (unlisten _) as [[]|].
Qed.

Lemma rerender_valid m :
  Lifecycle.renders (cells (Lifecycle.instance m)) = true ->
  Lifecycle.rerender m = m.
Proof. intros Hvalid. unfold Lifecycle.rerender. now rewrite Hvalid. Qed.

Lemma listener_renders props payload s :
  Lifecycle.renders s = true ->
  Lifecycle.renderable props payload = true ->
  Lifecycle.renders (listener props payload s) = true.
Proof.
  intros Hvalid Hpayload. unfold Lifecycle.renders in *.
  destruct payload as [tag | d | p | lvl key]; try exact Hvalid.
  - cbn [listener]. rewrite switchPhase_label.
    destruct (phaseLabel (translation props) tag); exact Hvalid.
  - cbn in Hpayload |- *. rewrite forallb_app, Hvalid. cbn.
    now rewrite Hpayload.
Qed.

(** The actions React passes on keep the ref as it is. *)
Lemma apply_keeps_guard props a w :
  a <> RunEffect ->
  isInstalling (apply props a w) = isInstalling w.
Proof.
  intros Hother.
  destruct a as [ | | | payload | | e | index | ]; cbn; try reflexivity.
  - contradiction.
  - unfold cleanup. now destruct (unlisten w) as [[]|].
  - unfold deliver. now destruct (subscribed w).
Qed.

Lemma Lifecycle_apply_invariant props a m :
  Lifecycle.invariant props m ->
  Lifecycle.enabled a m = true ->
  Lifecycle.invariant props (Lifecycle.apply props a m).
Proof.
  unfold Lifecycle.invariant, Lifecycle.enabled.
  intros (Hheld & Hvalid & Hreach) Hen.
  apply andb_prop in Hen. destruct Hen as [Hmounted Hen].
  apply negb_true_iff in Hmounted.
  specialize (Hvalid Hmounted). specialize (Hreach Hmounted).
  assert (Hstep : forall b,
             enabled b (Lifecycle.instance m) = true ->
             reachable props (apply props b (Lifecycle.instance m))).
  { intros b Hb. apply (reachable_exec props [b] _ _ Hreach).
    cbn. now rewrite Hb. }
  assert (Hother : forall b,
             b <> RunEffect ->
             enabled b (Lifecycle.instance m) = true ->
             Lifecycle.invariant props
               (Lifecycle.rerender
                  {| Lifecycle.instance := apply props b (Lifecycle.instance m);
                     Lifecycle.cleanupHeld := Lifecycle.cleanupHeld m;
                     Lifecycle.unmounted := Lifecycle.unmounted m |})).
  { intros b Hneq Hb. unfold Lifecycle.invariant, Lifecycle.rerender.
    cbn [Lifecycle.instance].
    destruct (Lifecycle.renders
                (cells (apply props b (Lifecycle.instance m)))) eqn:Hnew;
      cbn.
    - repeat split; auto.
      intros Hh. rewrite apply_keeps_guard by exact Hneq. auto.
    - repeat split; discriminate. }
  destruct a as [ | | | payload | | e | index | ];
    try (apply Hother; [discriminate | exact Hen]).
  - (* RunEffect *)
    cbn. repeat split; auto.
    + intros Hnew. apply negb_true_iff in Hnew.
      unfold effect. now rewrite Hnew.
    + intros _. unfold effect.
      destruct (isInstalling (Lifecycle.instance m)); exact Hvalid.
    + intros _. now apply (Hstep RunEffect).
  - (* RunCleanup *)
    cbn. repeat split; try discriminate.
    + intros _. unfold cleanup.
      destruct (unlisten (Lifecycle.instance m)) as [[]|]; exact Hvalid.
    + intros _. apply (Hstep RunCleanup). cbn. auto.
Qed.

Lemma Lifecycle_reachable_invariant props m :
  Lifecycle.reachable props m -> Lifecycle.invariant props m.
Proof.
  intros [schedule Hexec].
  assert (Hgen : forall m0, Lifecycle.invariant props m0 ->
                            Lifecycle.exec props schedule m0 = Some m ->
                            Lifecycle.invariant props m).
  { clear Hexec.
    induction schedule as [|a rest IH]; intros m0 Hinv Hexec; cbn in Hexec.
    - now injection Hexec as <-.
    - destruct (Lifecycle.enabled a m0) eqn:Hen; [|discriminate].
      exact (IH _ (Lifecycle_apply_invariant _ _ _ Hinv Hen) Hexec). }
  apply (Hgen (Lifecycle.mount props)); [|exact Hexec].
  unfold Lifecycle.invariant; cbn.
  repeat split; try discriminate.
  intros _. now exists [].
Qed.

Lemma Lifecycle_exec_deliver_unsubscribed props payloads m :
  Lifecycle.unmounted m = false ->
  Lifecycle.renders (cells (Lifecycle.instance m)) = true ->
  subscribed (Lifecycle.instance m) = false ->
  Lifecycle.exec props (map Deliver payloads) m = Some m.
Proof.
  intros Hmounted Hvalid Hsub.
  induction payloads as [|payload rest IH]; [reflexivity|].
  cbn [map Lifecycle.exec]. unfold Lifecycle.enabled. rewrite Hmounted.
  cbn [negb andb enabled Lifecycle.apply apply]. unfold deliver.
  rewrite Hsub.
  replace {| Lifecycle.instance := Lifecycle.instance m;
             Lifecycle.cleanupHeld := Lifecycle.cleanupHeld m;
             Lifecycle.unmounted := Lifecycle.unmounted m |}
    with m by now destruct m.
  rewrite rerender_valid by exact Hvalid. exact IH.
Qed.

(** C2 (as amended).  The transition that ends a run (success or failure)
    leaves the subscription as it is: a listener that is registered stays
    registered and is still called with every payload that is delivered
    afterwards.  The subscription is released by the cleanup that the
    effect returned when it started the run: when React still holds that
    cleanup it can call it after the run has ended, the listener is then
    removed, and whatever is delivered leaves the instance unchanged. *)
Theorem subscription_kept_at_settlement_released_by_held_cleanup :
  forall props m a,
    Lifecycle.reachable props m ->
    Lifecycle.unmounted m = false ->
    await (Lifecycle.instance m) = AwaitInvoke ->
    terminal a = true ->
    Lifecycle.enabled a m = true
    /\ Lifecycle.unmounted (Lifecycle.apply props a m) = false
    /\ await (Lifecycle.instance (Lifecycle.apply props a m)) = Settled
    /\ subscribed (Lifecycle.instance (Lifecycle.apply props a m))
       = subscribed (Lifecycle.instance m)
    /\ Lifecycle.cleanupHeld (Lifecycle.apply props a m)
       = Lifecycle.cleanupHeld m
    /\ (subscribed (Lifecycle.instance m) = true ->
        forall payload,
          Lifecycle.enabled (Deliver payload) (Lifecycle.apply props a m)
            = true
          /\ cells (Lifecycle.instance
                      (Lifecycle.apply props (Deliver payload)
                         (Lifecycle.apply props a m)))
             = listener props payload
                 (cells (Lifecycle.instance (Lifecycle.apply props a m))))
    /\ (Lifecycle.cleanupHeld m = true ->
        Lifecycle.enabled RunCleanup (Lifecycle.apply props a m) = true
        /\ subscribed
             (Lifecycle.instance
                (Lifecycle.apply props RunCleanup (Lifecycle.apply props a m)))
           = false
        /\ (forall payloads,
              Lifecycle.exec props (map Deliver payloads)
                (Lifecycle.apply props RunCleanup (Lifecycle.apply props a m))
              = Some (Lifecycle.apply props RunCleanup
                        (Lifecycle.apply props a m)))).
Proof.
  intros props m a Hreach Hmounted Haw Hterm.
  destruct (Lifecycle_reachable_invariant _ _ Hreach) as (_ & Hvalid & Hbase).
  specialize (Hvalid Hmounted). specialize (Hbase Hmounted).
  pose proof (reachable_invariant _ _ Hbase) as (_ & _ & Hun & _).
  rewrite Haw in Hun.
  assert (Hshape : exists f,
             apply props a (Lifecycle.instance m)
               = settle f (Lifecycle.instance m)
             /\ alerts (f (cells (Lifecycle.instance m)))
                = alerts (cells (Lifecycle.instance m))
             /\ Lifecycle.apply props a m
                = Lifecycle.rerender
                    {| Lifecycle.instance := settle f (Lifecycle.instance m);
                       Lifecycle.cleanupHeld := Lifecycle.cleanupHeld m;
                       Lifecycle.unmounted := Lifecycle.unmounted m |}).
  { destruct a; try discriminate Hterm; cbn; eauto. }
  destruct Hshape as (f & _ & Halerts & ->).
  rewrite rerender_valid
    by (cbn; unfold Lifecycle.renders in *; now rewrite Halerts).
  assert (Hen : Lifecycle.enabled a m = true).
  { unfold Lifecycle.enabled. rewrite Hmounted.
    destruct a; try discriminate Hterm; cbn; now rewrite Haw. }
  split; [exact Hen|].
  cbn [Lifecycle.instance Lifecycle.cleanupHeld Lifecycle.unmounted].
  repeat split; try assumption.
  - unfold Lifecycle.enabled. cbn. now rewrite Hmounted.
  - cbn [Lifecycle.apply]. rewrite rerender_cells. cbn.
    unfold deliver. cbn. match goal with Hsub : subscribed _ = true |- _ =>
      now rewrite Hsub end.
  - unfold Lifecycle.enabled. cbn. rewrite Hmounted.
    match goal with Hheld : Lifecycle.cleanupHeld m = true |- _ =>
      now rewrite Hheld end.
  - cbn. unfold cleanup. cbn. now rewrite Hun.
  - intros payloads. apply Lifecycle_exec_deliver_unsubscribed.
    + exact Hmounted.
    + cbn. unfold cleanup. cbn. rewrite Hun. cbn.
      unfold Lifecycle.renders in *. now rewrite Halerts.
    + cbn. unfold cleanup. cbn. now rewrite Hun.
Qed.

Lemma subscription_kept_at_settlement_released_by_held_cleanup_witness :
  subscribed
    (Lifecycle.instance
       (Lifecycle.apply installEn InvokeResolved (Lifecycle.running installEn)))
    = true
  /\ cells
       (Lifecycle.instance
          (Lifecycle.apply installEn (Deliver (changeDetail "mods/late.jar"))
             (Lifecycle.apply installEn InvokeResolved
                (Lifecycle.running installEn))))
     = listener installEn (changeDetail "mods/late.jar")
         (cells
            (Lifecycle.instance
               (Lifecycle.apply installEn InvokeResolved
                  (Lifecycle.running installEn))))
  /\ Lifecycle.exec installEn
       (map Deliver [changeDetail "mods/late.jar"; updateProgress 1%float])
       (Lifecycle.apply installEn RunCleanup
          (Lifecycle.apply installEn InvokeResolved
             (Lifecycle.running installEn)))
     = Some (Lifecycle.apply installEn RunCleanup
               (Lifecycle.apply installEn InvokeResolved
                  (Lifecycle.running installEn))).
Proof.
  pose proof (subscription_kept_at_settlement_released_by_held_cleanup
                installEn (Lifecycle.running installEn) InvokeResolved
                (ex_intro _ [RunEffect; ListenResolved] eq_refl)
                eq_refl eq_refl eq_refl)
    as (_ & _ & _ & Hsub & _ & Hhandled & Hreleased).
  split; [exact Hsub|].
  split.
  - exact (proj2 (Hhandled eq_refl _)).
  - exact (proj2 (proj2 (Hreleased eq_refl)) _).
Defined.

(** C6 (as amended).  For every [addAlert] event that reaches the listener,
    one alert with the level of the event and the value of the listener's
    table at the key is appended to the end of the queue.  When the key is
    an entry of the table the message is the entry's text; when it is
    neither an entry nor the name of a member of [Object.prototype] the
    message is [undefined], which is rendered as nothing: the key itself is
    not used as a fallback.  In both cases the run is not failed: the
    outcome is unchanged, the screen renders and stays mounted, the
    listener stays registered and the run awaited. *)
Theorem addAlert_appends_table_value_and_run_goes_on :
  forall props lvl key m,
    Lifecycle.unmounted m = false ->
    Lifecycle.renders (cells (Lifecycle.instance m)) = true ->
    subscribed (Lifecycle.instance m) = true ->
    existsb (String.eqb key) Localizer.objectPrototype = false ->
    Lifecycle.enabled (Deliver (addAlert lvl key)) m = true
    /\ alerts (cells (Lifecycle.instance
                        (Lifecycle.apply props (Deliver (addAlert lvl key)) m)))
       = (alerts (cells (Lifecycle.instance m))
          ++ [ {| level := lvl;
                  message := Localizer.get (translation props) key |} ])%list
    /\ ((exists v, In (key, v) (Localizer.entries (translation props))
                   /\ Localizer.get (translation props) key
                      = Localizer.JsString v)
        \/ (Localizer.assoc key (Localizer.entries (translation props)) = None
            /\ Localizer.get (translation props) key = Localizer.JsUndefined))
    /\ outcome (cells (Lifecycle.instance
                         (Lifecycle.apply props (Deliver (addAlert lvl key)) m)))
       = outcome (cells (Lifecycle.instance m))
    /\ Lifecycle.unmounted
         (Lifecycle.apply props (Deliver (addAlert lvl key)) m) = false
    /\ Lifecycle.renders
         (cells (Lifecycle.instance
                   (Lifecycle.apply props (Deliver (addAlert lvl key)) m)))
       = true
    /\ subscribed (Lifecycle.instance
                     (Lifecycle.apply props (Deliver (addAlert lvl key)) m))
       = true
    /\ await (Lifecycle.instance
                (Lifecycle.apply props (Deliver (addAlert lvl key)) m))
       = await (Lifecycle.instance m)
    /\ Lifecycle.cleanupHeld
         (Lifecycle.apply props (Deliver (addAlert lvl key)) m)
       = Lifecycle.cleanupHeld m.
Proof.
  intros props lvl key m Hmounted Hvalid Hsub Hown.
  assert (Hget : (exists v,
                     In (key, v) (Localizer.entries (translation props))
                     /\ Localizer.get (translation props) key
                        = Localizer.JsString v)
                 \/ (Localizer.assoc key
                       (Localizer.entries (translation props)) = None
                     /\ Localizer.get (translation props) key
                        = Localizer.JsUndefined)).
  { destruct (get_cases (translation props) key)
      as [Hentry | (Hnone & [Hinherited | Hundefined])]; auto.
    unfold Localizer.get in Hinherited.
    rewrite Hnone, Hown in Hinherited. discriminate. }
  assert (Hchild : Lifecycle.validChild
                     (Localizer.get (translation props) key) = true).
  { destruct Hget as [(v & _ & ->) | (_ & ->)]; reflexivity. }
  assert (Hnext : Lifecycle.renders
                    (listener props (addAlert lvl key)
                       (cells (Lifecycle.instance m))) = true).
  { now apply listener_renders. }
  split; [unfold Lifecycle.enabled; now rewrite Hmounted|].
  cbn [Lifecycle.apply apply]. unfold deliver. rewrite Hsub.
  rewrite rerender_valid by exact Hnext.
  cbn [Lifecycle.instance Lifecycle.cleanupHeld Lifecycle.unmounted
       withCells cells subscribed await].
  rewrite listener_outcome.
  repeat split; try assumption.
Qed.

(** A warning whose key no table has, then the alert of the launcher. *)
Lemma addAlert_appends_table_value_and_run_goes_on_witness :
  alerts
    (cells (Lifecycle.instance
              (Lifecycle.apply installEn
                 (Deliver (addAlert "warning" "alertOnMissingJava"))
                 (Lifecycle.running installEn))))
    = [ {| level := "warning"; message := Localizer.JsUndefined |} ]
  /\ Lifecycle.unmounted
       (Lifecycle.apply installEn
          (Deliver (addAlert "info" "alertOnLaunchModLoader"))
          (Lifecycle.running installEn))
     = false.
Proof.
  destruct (addAlert_appends_table_value_and_run_goes_on installEn
              "warning" "alertOnMissingJava" (Lifecycle.running installEn)
              eq_refl eq_refl eq_refl eq_refl)
    as (_ & Hqueue & _).
  destruct (addAlert_appends_table_value_and_run_goes_on installEn
              "info" "alertOnLaunchModLoader" (Lifecycle.running installEn)
              eq_refl eq_refl eq_refl eq_refl)
    as (_ & _ & _ & _ & Hmounted & _).
  split; [exact Hqueue | exact Hmounted].
Defined.

(** X4.  Payloads alone never end a run.  A mounted instance whose listener
    is registered handles every payload it is sent, one call of the
    listener per payload; as long as the alerts the payloads add can be
    rendered, the component stays mounted and, whatever the payloads are,
    the outcome is the one from before, the awaited promise is the same,
    the listener stays registered and [run_installer] is not invoked again:
    only the return or the failure of [run_installer] finishes or fails the
    run. *)
Theorem renderable_payloads_never_settle_a_run :
  forall props payloads m,
    Lifecycle.unmounted m = false ->
    Lifecycle.renders (cells (Lifecycle.instance m)) = true ->
    subscribed (Lifecycle.instance m) = true ->
    forallb (Lifecycle.renderable props) payloads = true ->
    exists m',
      Lifecycle.exec props (map Deliver payloads) m = Some m'
      /\ Lifecycle.unmounted m' = false
      /\ cells (Lifecycle.instance m')
         = Stream.listenAll props payloads (cells (Lifecycle.instance m))
      /\ outcome (cells (Lifecycle.instance m'))
         = outcome (cells (Lifecycle.instance m))
      /\ await (Lifecycle.instance m') = await (Lifecycle.instance m)
      /\ subscribed (Lifecycle.instance m') = true
      /\ invocations (Lifecycle.instance m')
         = invocations (Lifecycle.instance m)
      /\ Lifecycle.cleanupHeld m' = Lifecycle.cleanupHeld m.
Proof.
  intros props payloads.
  induction payloads as [|payload rest IH];
    intros m Hmounted Hvalid Hsub Hall.
  - exists m. cbn. now repeat split.
  - cbn in Hall. apply andb_prop in Hall. destruct Hall as [Hone Hrest].
    pose proof (listener_renders props payload _ Hvalid Hone) as Hnext.
    assert (Hstep : Lifecycle.apply props (Deliver payload) m
                    = {| Lifecycle.instance :=
                           withCells (listener props payload)
                             (Lifecycle.instance m);
                         Lifecycle.cleanupHeld := Lifecycle.cleanupHeld m;
                         Lifecycle.unmounted := Lifecycle.unmounted m |}).
    { cbn [Lifecycle.apply apply]. unfold deliver. rewrite Hsub.
      now apply rerender_valid. }
    destruct (IH {| Lifecycle.instance :=
                      withCells (listener props payload)
                        (Lifecycle.instance m);
                    Lifecycle.cleanupHeld := Lifecycle.cleanupHeld m;
                    Lifecycle.unmounted := Lifecycle.unmounted m |})
      as (m' & Hexec & Hm' & Hcells & Hout & Haw & Hsub' & Hcount & Hheld);
      try assumption.
    exists m'.
    cbn [Lifecycle.instance Lifecycle.cleanupHeld withCells cells await
         subscribed invocations] in Hcells, Hout, Haw, Hcount, Hheld.
    rewrite listener_outcome in Hout.
    split.
    + cbn [map Lifecycle.exec]. unfold Lifecycle.enabled.
      rewrite Hmounted. cbn [negb andb enabled].
      rewrite Hstep. exact Hexec.
    + now repeat split.
Qed.

Lemma renderable_payloads_never_settle_a_run_witness :
  exists m',
    Lifecycle.exec installEn
      (map Deliver
         [changePhase "downloadMods";
          addAlert "warning" "alertOnFailedAddProfile";
          addAlert "info" "alertOnMissingJava";
          updateProgress 1%float])
      (Lifecycle.running installEn) = Some m'
    /\ Lifecycle.unmounted m' = false
    /\ outcome (cells (Lifecycle.instance m')) = Running
    /\ await (Lifecycle.instance m') = AwaitInvoke.
Proof.
  destruct (renderable_payloads_never_settle_a_run installEn
              [changePhase "downloadMods";
               addAlert "warning" "alertOnFailedAddProfile";
               addAlert "info" "alertOnMissingJava";
               updateProgress 1%float]
              (Lifecycle.running installEn)
              eq_refl eq_refl eq_refl eq_refl)
    as (m' & Hexec & Hmounted & _ & Hout & Hawait & _).
  exists m'. repeat split; assumption.
Defined.



(* ================================================================== *)
(** ** Mode selection *)
(* ================================================================== *)

Lemma keepsRun_step a w :
  AppLife.keepsRun a = true ->
  App.installerMode (AppLife.state (AppLife.apply a w))
    = App.installerMode (AppLife.state w)
  /\ App.screen (AppLife.state (AppLife.apply a w))
     = App.screen (AppLife.state w).
Proof.
  intros Hkeeps.
  destruct a as [ | status | t mode result | | l | ]; cbn in *;
    try (now split); try discriminate.
  - unfold AppLife.effect. now destruct (AppLife.isInitialized w).
  - unfold App.onModeSelect. rewrite Hkeeps. now split.
Qed.

Lemma keepsRun_exec schedule :
  forall w w',
    forallb AppLife.keepsRun schedule = true ->
    AppLife.exec schedule w = Some w' ->
    App.installerMode (AppLife.state w') = App.installerMode (AppLife.state w)
    /\ App.screen (AppLife.state w') = App.screen (AppLife.state w).
Proof.
  induction schedule as [|a rest IH]; intros w w' Hall Hexec; cbn in *.
  - injection Hexec as <-. now split.
  - apply andb_prop in Hall. destruct Hall as [Hone Hrest].
    destruct (AppLife.enabled a w); [|discriminate].
    destruct (IH _ _ Hrest Hexec) as [Hmode Hscreen].
    destruct (keepsRun_step a w Hone) as [Hmode1 Hscreen1].
    split; congruence.
Qed.

(** C8 (as amended).  When [select_mode] answers with [isAccept = false],
    [App] shows the error header followed by the error of the answer, or by
    the literal [<unknown error>] when the answer carries no error or an
    empty one, and neither the screen nor the mode cell changes: from the
    title screen the title screen is rendered again and no installer
    screen is created.  When it answers with [isAccept = true], the mode
    cell holds the accepted mode and the installer screen is rendered with
    it; the cell keeps that mode through everything that happens to [App]
    short of another accepted answer, until a failed run is dismissed,
    which clears it and returns to the title screen. *)
Theorem onModeSelect_refuses_or_enters_installer :
  forall t mode result a,
    (App.isAccept result = false ->
     (forall c rest,
         App.error result = Some (String c rest) ->
         App.errorMessage (App.onModeSelect t mode result a)
         = Some (Localizer.occurredError t ++ String c rest))
     /\ (App.error result = None \/ App.error result = Some "" ->
         App.errorMessage (App.onModeSelect t mode result a)
         = Some (Localizer.occurredError t ++ "<unknown error>"))
     /\ App.screen (App.onModeSelect t mode result a) = App.screen a
     /\ App.installerMode (App.onModeSelect t mode result a)
        = App.installerMode a
     /\ (App.screen a = App.title ->
         App.getScreen (App.onModeSelect t mode result a)
         = App.TitleScreen (App.translation a)))
    /\ (App.isAccept result = true ->
        App.screen (App.onModeSelect t mode result a) = App.installer
        /\ App.installerMode (App.onModeSelect t mode result a) = Some mode
        /\ App.errorMessage (App.onModeSelect t mode result a)
           = App.errorMessage a
        /\ App.getScreen (App.onModeSelect t mode result a)
           = App.InstallerScreenOf (Some mode) (App.translation a)
        /\ (forall w schedule w',
              AppLife.state w = App.onModeSelect t mode result a ->
              forallb AppLife.keepsRun schedule = true ->
              AppLife.exec schedule w = Some w' ->
              App.installerMode (AppLife.state w') = Some mode
              /\ App.screen (AppLife.state w') = App.installer)
        /\ App.getScreen
             (App.onDismissError (App.onModeSelect t mode result a))
           = App.TitleScreen (App.translation a)
        /\ App.installerMode
             (App.onDismissError (App.onModeSelect t mode result a))
           = None).
Proof.
  intros t mode result a. split; intros Hanswer.
  - unfold App.onModeSelect, App.getScreen. rewrite Hanswer. cbn.
    repeat split.
    + intros c rest Herror. now rewrite Herror.
    + intros [Herror | Herror]; now rewrite Herror.
    + intros Hscreen. now rewrite Hscreen.
  - assert (Hcells :
              App.installerMode (App.onModeSelect t mode result a) = Some mode
              /\ App.screen (App.onModeSelect t mode result a)
                 = App.installer).
    { unfold App.onModeSelect. rewrite Hanswer. now split. }
    destruct Hcells as [Hmode Hscreen].
    repeat split; try assumption;
      try (unfold App.onModeSelect, App.getScreen; rewrite Hanswer;
           reflexivity).
    + destruct (keepsRun_exec schedule w w') as [Hkept _]; try assumption.
      congruence.
    + destruct (keepsRun_exec schedule w w') as [_ Hkept]; try assumption.
      congruence.
Qed.

(** An update is refused while nothing is installed; an installation is
    accepted, and the language is switched and a refusal arrives during the
    run. *)
Lemma onModeSelect_refuses_or_enters_installer_witness :
  App.getScreen
    (App.onModeSelect Localizer.translations_en update
       {| App.isAccept := false;
          App.error := Some "The modpack is not installed." |}
       App.initialState)
    = App.TitleScreen Localizer.translations_ja
  /\ App.errorMessage
       (App.onModeSelect Localizer.translations_en update
          {| App.isAccept := false;
             App.error := Some "The modpack is not installed." |}
          App.initialState)
     = Some ("An error has occurred." ++ LF
             ++ "Details: The modpack is not installed.")
  /\ App.errorMessage
       (App.onModeSelect Localizer.translations_en update
          {| App.isAccept := false; App.error := Some "" |}
          App.initialState)
     = Some ("An error has occurred." ++ LF ++ "Details: <unknown error>")
  /\ (exists w',
        AppLife.exec
          [AppLife.LanguageChange Localizer.en;
           AppLife.ModeAnswered Localizer.translations_ja update
             {| App.isAccept := false; App.error := None |};
           AppLife.CloseDialog]
          (AppLife.withState
             (App.onModeSelect Localizer.translations_ja install
                {| App.isAccept := true; App.error := None |})
             AppLife.mount)
        = Some w'
        /\ App.installerMode (AppLife.state w') = Some install).
Proof.
  pose proof (onModeSelect_refuses_or_enters_installer
                Localizer.translations_en update
                {| App.isAccept := false;
                   App.error := Some "The modpack is not installed." |}
                App.initialState)
    as [Hrefused _].
  destruct (Hrefused eq_refl) as (Hshown & _ & _ & _ & Hscreen).
  pose proof (onModeSelect_refuses_or_enters_installer
                Localizer.translations_en update
                {| App.isAccept := false; App.error := Some "" |}
                App.initialState)
    as [Hempty _].
  destruct (Hempty eq_refl) as (_ & Hfallback & _).
  pose proof (onModeSelect_refuses_or_enters_installer
                Localizer.translations_ja install
                {| App.isAccept := true; App.error := None |}
                App.initialState)
    as [_ Haccepted].
  destruct (Haccepted eq_refl) as (_ & _ & _ & _ & Hkept & _).
  split; [exact (Hscreen eq_refl)|].
  split; [exact (Hshown _ _ eq_refl)|].
  split; [exact (Hfallback (or_intror eq_refl))|].
  eexists. split; [reflexivity|].
  exact (proj1 (Hkept
                  (AppLife.withState
                     (App.onModeSelect Localizer.translations_ja install
                        {| App.isAccept := true; App.error := None |})
                     AppLife.mount)
                  [AppLife.LanguageChange Localizer.en;
                   AppLife.ModeAnswered Localizer.translations_ja update
                     {| App.isAccept := false; App.error := None |};
                   AppLife.CloseDialog]
                  _ eq_refl eq_refl eq_refl)).
Defined.

(** C8, the claim as stated fails.  The accepted mode is not frozen: when
    two [select_mode] calls are pending and both are accepted, the second
    answer replaces the mode while the installer screen is shown.  And an
    error that is present but empty is not displayed as it is: the
    fallback literal is shown for it. *)
Lemma second_accepted_answer_replaces_mode :
  App.getScreen
    (App.onModeSelect Localizer.translations_ja update
       {| App.isAccept := true; App.error := None |}
       (App.onModeSelect Localizer.translations_ja install
          {| App.isAccept := true; App.error := None |}
          App.initialState))
    = App.InstallerScreenOf (Some update) Localizer.translations_ja
  /\ App.getScreen
       (App.onModeSelect Localizer.translations_ja install
          {| App.isAccept := true; App.error := None |}
          App.initialState)
     = App.InstallerScreenOf (Some install) Localizer.translations_ja
  /\ Some update <> Some install
  /\ App.errorMessage
       (App.onModeSelect Localizer.translations_en update
          {| App.isAccept := false; App.error := Some "" |}
          App.initialState)
     = Some (Localizer.occurredError Localizer.translations_en
             ++ "<unknown error>")
  /\ Localizer.occurredError Localizer.translations_en ++ "<unknown error>"
     <> Localizer.occurredError Localizer.translations_en ++ "".
Proof.
  repeat split; discriminate.
Qed.
